(** * soundtrack-analyzer: the signal analysis core

    A shallow embedding of [soundtrack_analyzer/analyze.py] and of
    [write_csv] from [soundtrack_analyzer/utils.py], with the properties
    of the gap-tolerant classifier and of the duration computation.

    Conventions of the embedding:
    - a NumPy integer array is a [list Z]; a NumPy boolean array is a
      [list bool]; indices and run lengths are [Z], as NumPy's [int64];
      the integer type of the array [patch_signal] writes into is an
      argument ([int16] for the arrays of [read_sound_file], [int64] for
      the arrays of the tests), and the [int16] of [read_sound_file] is
      written out;
    - Python [float] values (seconds, fractions) are exact rationals [Q],
      compared with [==]; the [float64] a NumPy division returns can also
      be [nan] or an infinity;
    - a Python exception is the [Raise] branch of [result]. *)

From Stdlib Require Import ZArith QArith Qround Lia ZifyBool Ascii.
From stdpp Require Import base option list sorting gmap strings.

Local Open Scope Z_scope.

(** ** Exceptions *)

Inductive exn : Type :=
  | IndexError
  | ZeroDivisionError
  | OverflowError
  | ValueError (msg : string).

Inductive result (A : Type) : Type :=
  | Ok (a : A)
  | Raise (e : exn).
Arguments Ok {A} a.
Arguments Raise {A} e.

Global Instance result_ret : MRet result := λ A a, Ok a.
Global Instance result_bind : MBind result := λ A B f m,
  match m with
  | Ok a => f a
  | Raise e => Raise e
  end.

(** ** Python and NumPy primitives used by the analysis *)

(** [l[i]] with Python's negative indices. *)
Definition py_index {A} (l : list A) (i : Z) : result A :=
  let n := Z.of_nat (length l) in
  let j := if i <? 0 then n + i else i in
  if (0 <=? j) && (j <? n)
  then match l !! Z.to_nat j with
       | Some x => Ok x
       | None => Raise IndexError
       end
  else Raise IndexError.

(** [l[i] = v] on an array, with Python's negative indices. *)
Definition py_setitem {A} (l : list A) (i : Z) (v : A) : result (list A) :=
  let n := Z.of_nat (length l) in
  let j := if i <? 0 then n + i else i in
  if (0 <=? j) && (j <? n)
  then Ok (<[Z.to_nat j := v]> l)
  else Raise IndexError.

(** [a[idx] = v] for a list of integer indices [idx]. *)
Fixpoint np_setitem {A} (a : list A) (idx : list Z) (v : A)
  : result (list A) :=
  match idx with
  | [] => Ok a
  | i :: idx' => a' ← py_setitem a i v; np_setitem a' idx' v
  end.

(** [range(a, b)]. *)
Definition py_range (a b : Z) : list Z := seqZ a (b - a).

(** [where_from k flags] lists the positions of the true flags, the first
    flag being at position [k]; [np.where(flags)[0]] starts at 0. *)
Fixpoint where_from (k : Z) (flags : list bool) : list Z :=
  match flags with
  | [] => []
  | b :: flags' =>
      if b then k :: where_from (k + 1) flags'
      else where_from (k + 1) flags'
  end.

Definition np_where (flags : list bool) : list Z := where_from 0 flags.

(** [np.diff(a)]: [out[i] = a[i+1] - a[i]]. *)
Definition np_diff (a : list Z) : list Z := zip_with Z.sub (tail a) a.

(** [np.count_nonzero] of a boolean array. *)
Definition np_count_nonzero (m : list bool) : Z :=
  Z.of_nat (length (filter (λ b, b = true) m)).

(** [signal > cutoff], elementwise. *)
Definition np_gt (signal : list Z) (cutoff : Z) : list bool :=
  map (λ x, cutoff <? x) signal.

(** [signal <= cutoff], elementwise. *)
Definition np_le (signal : list Z) (cutoff : Z) : list bool :=
  map (λ x, x <=? cutoff) signal.

(** [m1 != m2], elementwise on boolean arrays. *)
Definition np_ne (m1 m2 : list bool) : list bool := zip_with xorb m1 m2.

(** Python's true division [a / b] of two integers. *)
Definition py_truediv (a b : Z) : result Q :=
  if b =? 0 then Raise ZeroDivisionError
  else Ok (inject_Z a / inject_Z b)%Q.

(** A NumPy [float64]: a finite number, an infinity, or [nan]. *)
Inductive np_float : Type :=
  | Finite (q : Q)
  | Infinity (negative : bool)
  | NaN.

(** [a / b] for a NumPy integer [a], as [np.count_nonzero] returns, and a
    Python integer [b]: a [float64]; a division by zero warns and gives
    [nan] or an infinity, it does not raise. *)
Definition np_truediv (a b : Z) : np_float :=
  if b =? 0 then (if a =? 0 then NaN else Infinity (a <? 0))
  else Finite (inject_Z a / inject_Z b).

(** [t * f] for a finite [float64] [t] and a [float64] [f]. *)
Definition np_mul (t : Q) (f : np_float) : np_float :=
  match f with
  | Finite q => Finite (t * q)
  | Infinity negative =>
      if Qeq_bool t 0 then NaN
      else Infinity (xorb negative (negb (Qle_bool 0 t)))
  | NaN => NaN
  end.

(** The integer type of an array: its least and greatest value. *)
Record dtype : Type := {
  dt_min : Z;
  dt_max : Z
}.

Definition int16 : dtype := {| dt_min := -32768; dt_max := 32767 |}.

Definition int64 : dtype :=
  {| dt_min := -9223372036854775808; dt_max := 9223372036854775807 |}.

Definition fits (dt : dtype) (v : Z) : bool :=
  (dt_min dt <=? v) && (v <=? dt_max dt).

(** [a[idx] = v] for a Python integer [v] and an array [a] of type [dt]:
    [v] is converted to the type of the array first, and a value out of
    its bounds is an [OverflowError], also when [idx] is empty (before
    NumPy 2 the value was stored wrapped around instead). *)
Definition np_setitem_int (dt : dtype) (a : list Z) (idx : list Z) (v : Z)
  : result (list Z) :=
  if fits dt v then np_setitem a idx v else Raise OverflowError.

(** ** [patch_signal] *)

(** The state of the loop over the run lengths: [(index, below, gaps)]. *)
Definition patch_step (max_gap : Q) (st : Z * bool * list Z) (item : Z)
  : Z * bool * list Z :=
  let '(index, below, gaps) := st in
  let gaps :=
    if below && Qle_bool (inject_Z item) max_gap
    then gaps ++ py_range index (index + item)
    else gaps in
  (index + item, negb below, gaps).

(** The run lengths of a mask:
    [np.diff(np.where(np.concatenate(([mask[0]], mask[:-1] != mask[1:],
    [True])))[0])]. *)
Definition run_lengths (mask : list bool) : result (list Z) :=
  m0 ← py_index mask 0;
  Ok (np_diff (np_where
        ([m0] ++ np_ne (removelast mask) (tail mask) ++ [true]))).

(** [patch_signal(signal, cutoff, max_gap)] for an array [signal] of type
    [dt].  The source writes into its argument and returns it; the value
    returned here is that array after the write. *)
Definition patch_signal (dt : dtype) (signal : list Z) (cutoff : Z)
    (max_gap : Q) : result (list Z) :=
  s0 ← py_index signal 0;
  let '(mask, below) :=
    if cutoff <? s0 then (np_gt signal cutoff, false)
    else (np_le signal cutoff, true) in
  runs ← run_lengths mask;
  let '(_, _, gaps) := fold_left (patch_step max_gap) runs (0, below, []) in
  np_setitem_int dt signal gaps (cutoff + 1).

(** [max_gap /= 0.000125], the conversion of a gap in seconds to a gap in
    samples inside [get_bark_fraction]. *)
Definition seconds_to_samples (max_gap : Q) : Q :=
  (max_gap / (125 # 1000000))%Q.

(** [get_bark_fraction(signal, cutoff, max_gap)] for an array [signal] of
    type [dt], the type its copy has; [max_gap] in seconds. *)
Definition get_bark_fraction (dt : dtype) (signal : list Z) (cutoff : Z)
    (max_gap : Q) : result np_float :=
  if Qle_bool max_gap 0
  then Ok (np_truediv (np_count_nonzero (np_gt signal cutoff))
                      (Z.of_nat (length signal)))
  else
    let max_gap := seconds_to_samples max_gap in
    signal ← patch_signal dt signal cutoff max_gap;
    Ok (np_truediv (np_count_nonzero (np_gt signal cutoff))
                   (Z.of_nat (length signal))).

(** ** [read_sound_file] *)

(** An opened [wave.Wave_read] object: the header fields and the frames not
    yet read.  Reading consumes [wav_data]. *)
Record wave_read : Type := {
  wav_nchannels : Z;
  wav_sampwidth : Z;
  wav_framerate : Z;
  wav_nframes : Z;
  wav_data : list Byte.byte
}.

(** [Wave_read.readframes(n)]: at most [n] frames; all that is left when
    [n] is negative. *)
Definition readframes (w : wave_read) (n : Z) : list Byte.byte * wave_read :=
  let size := n * (wav_nchannels w * wav_sampwidth w) in
  let left := Z.of_nat (length (wav_data w)) in
  let size := if (size <? 0) || (left <? size) then left else size in
  (take (Z.to_nat size) (wav_data w),
   {| wav_nchannels := wav_nchannels w;
      wav_sampwidth := wav_sampwidth w;
      wav_framerate := wav_framerate w;
      wav_nframes := wav_nframes w;
      wav_data := drop (Z.to_nat size) (wav_data w) |}).

Definition byte_val (b : Byte.byte) : Z := Z.of_N (Byte.to_N b).

(** A 16-bit pattern read as a signed [int16]. *)
Definition to_int16 (u : Z) : Z :=
  let u := u mod 65536 in
  if u <? 32768 then u else u - 65536.

(** [np.frombuffer(data, dtype=np.int16)], little-endian. *)
Fixpoint decode_int16 (data : list Byte.byte) : list Z :=
  match data with
  | lo :: hi :: data' =>
      to_int16 (byte_val lo + 256 * byte_val hi) :: decode_int16 data'
  | _ => []
  end.

Definition np_frombuffer_int16 (data : list Byte.byte) : result (list Z) :=
  if Z.of_nat (length data) mod 2 =? 0 then Ok (decode_int16 data)
  else Raise (ValueError "buffer size must be a multiple of element size").

(** [np.abs] on an [int16] array: the result stays an [int16]. *)
Definition np_abs_int16 (a : list Z) : list Z :=
  map (λ x, to_int16 (Z.abs x)) a.

(** [np.linspace(start, stop, num)] with the end point included. *)
Definition np_linspace (start stop : Q) (num : nat) : list Q :=
  let div := (num - 1)%nat in
  let delta := (stop - start)%Q in
  let step :=
    if (0 <? div)%nat then (delta / inject_Z (Z.of_nat div))%Q else delta in
  let y :=
    map (λ i, (inject_Z (Z.of_nat i) * step + start)%Q) (seq 0 num) in
  if (1 <? num)%nat then <[(num - 1)%nat := stop]> y else y.

(** The [samples] argument: [int | float]. *)
Inductive py_num : Type :=
  | PyInt (z : Z)
  | PyFloat (q : Q).

(** [int(q)]: truncation towards zero. *)
Definition py_int (q : Q) : Z :=
  if Qle_bool 0 q then Qfloor q else Qceiling q.

Definition is_integer (q : Q) : bool := Qeq_bool (inject_Z (Qfloor q)) q.

(** [read_sound_file(file, samples)], from the reader [wave.open] gives;
    the second component is the reader afterwards. *)
Definition read_sound_file (signal_wave : wave_read) (samples : py_num)
  : result (list Q * list Z) * wave_read :=
  if wav_nchannels signal_wave =? 2
  then (Raise (ValueError "Only mono files supported."), signal_wave)
  else
    let samples :=
      match samples with
      | PyInt z => z
      | PyFloat q =>
          if is_integer q then py_int q
          else py_int (inject_Z (wav_nframes signal_wave) * q)
      end in
    let '(data, signal_wave) := readframes signal_wave samples in
    (signal ← np_frombuffer_int16 data;
     let signal := np_abs_int16 signal in
     let frame_rate := wav_framerate signal_wave in
     stop ← py_truediv (Z.of_nat (length signal)) frame_rate;
     let time := np_linspace 0 stop (length signal) in
     Ok (time, signal),
     signal_wave).

(** ** [analyze_file] *)

Record datetime : Type := {
  dt_year : Z; dt_month : Z; dt_day : Z;
  dt_hour : Z; dt_minute : Z; dt_second : Z
}.

Record AnalysisResult : Type := {
  timestamp : datetime;
  total_time : Q;
  bark_time : np_float
}.

Section AnalyzeFile.
(** The collaborators of [analyze_file]: [open_sound file] is the reader
    the source opens for [file] (the file itself when its name ends in
    [.wav], the soundtrack [ffmpeg] extracts from it otherwise), and
    [extract_timestamp] parses the file name. *)
Variable open_sound : string → result wave_read.
Variable extract_timestamp : string → result datetime.

(** The plot is drawn from [time], [signal] and [cutoff] and changes
    none of them; the file it is saved to, when the caller asks for one,
    is written once the result is computed, see [main]. *)
Definition analyze_file (input_file : string) (cutoff : Z) (max_gap : Q)
  : result AnalysisResult :=
  signal_wave ← open_sound input_file;
  '(time, signal) ← (read_sound_file signal_wave (PyInt (-1))).1;
  total_time ← py_index time (-1);
  bark_fraction ← get_bark_fraction int16 signal cutoff max_gap;
  let bark_time := np_mul total_time bark_fraction in
  _ ← extract_timestamp input_file;
  ts ← extract_timestamp input_file;
  Ok {| timestamp := ts; total_time := total_time; bark_time := bark_time |}.
End AnalyzeFile.

(** ** [write_csv] *)

(** What a row holds: the header's strings, or the fields of an
    [AnalysisResult]. *)
Inductive cell : Type :=
  | CStr (s : string)
  | CDatetime (t : datetime)
  | CFloat (q : Q).

Definition row : Type := list cell.

Definition loc : Type := positive.

(** The store: the list objects of the program, by reference, and the
    regular files, each with the records written to it. *)
Record world : Type := {
  heap : gmap loc (list row);
  files : gmap string (list row)
}.

Definition header : row :=
  [CStr "timestamp"; CStr "total_time"; CStr "bark_time"].

(** [write_csv(rows, file, overwrite)]; [rows] is a reference to the
    caller's list.  [None] only for a reference that is not in the heap. *)
Definition write_csv (rows : loc) (file : string) (overwrite : bool)
    (σ : world) : option world :=
  rs ← heap σ !! rows;
  if bool_decide (is_Some (files σ !! file)) && negb overwrite
  then
    let old := default [] (files σ !! file) in
    Some {| heap := heap σ; files := <[file := old ++ rs]> (files σ) |}
  else
    let rs' := header :: rs in
    Some {| heap := <[rows := rs']> (heap σ);
            files := <[file := rs']> (files σ) |}.


(** ** Runs of a signal

    The vocabulary of the properties: a sample is high when it is strictly
    above the cutoff, a run is a maximal block of samples of one class. *)

Definition high (cutoff x : Z) : bool := cutoff <? x.

(** [run] is a maximal run of class [c] ([true] for high) of the signal
    [pre ++ run ++ post]: it is not empty, all of its samples have class
    [c], and the samples next to it, where there are any, have the other
    class. *)
Definition maximal_run (cutoff : Z) (c : bool) (pre run post : list Z)
  : Prop :=
  run ≠ [] ∧
  Forall (λ x, high cutoff x = c) run ∧
  (∀ y, last pre = Some y → high cutoff y = negb c) ∧
  (∀ y, head post = Some y → high cutoff y = negb c).

(** The number of high samples of a signal. *)
Definition count_high (cutoff : Z) (signal : list Z) : Z :=
  Z.of_nat (length (filter (λ x, cutoff < x) signal)).

(** How a sample [x] and the value [y] at its place after the patch are
    related: the sample is kept, or it was low and has become
    [cutoff + 1]. *)
Definition patched (cutoff x y : Z) : Prop :=
  y = x ∨ (high cutoff x = false ∧ y = cutoff + 1).

(** What the patch does to one run of class [c]. *)
Definition flush (cutoff : Z) (max_gap : Q) (c : bool) (cur : list Z)
  : list Z :=
  if negb c && Qle_bool (inject_Z (Z.of_nat (length cur))) max_gap
  then replicate (length cur) (cutoff + 1)
  else cur.

(** A linear scan that patches run by run: [cur] is the run being read, of
    class [c], and [rest] the samples not yet read. *)
Fixpoint scan (cutoff : Z) (max_gap : Q) (c : bool) (cur rest : list Z)
  : list Z :=
  match rest with
  | [] => flush cutoff max_gap c cur
  | x :: rest' =>
      if xorb c (high cutoff x)
      then flush cutoff max_gap c cur
           ++ scan cutoff max_gap (high cutoff x) [x] rest'
      else scan cutoff max_gap c (cur ++ [x]) rest'
  end.

(** The run lengths of a mask, read from left to right: [cnt] samples of
    class [c] have been read, [m] is what is left of the mask. *)
Fixpoint runs_from (c : bool) (cnt : Z) (m : list bool) : list Z :=
  match m with
  | [] => [cnt]
  | b :: m' =>
      if xorb c b then cnt :: runs_from b 1 m'
      else runs_from c (cnt + 1) m'
  end.

(** The indices the loop of [patch_signal] collects from the state
    [(index, below, _)] on. *)
Fixpoint gaps_of (max_gap : Q) (index : Z) (below : bool) (runs : list Z)
  : list Z :=
  match runs with
  | [] => []
  | item :: runs' =>
      (if below && Qle_bool (inject_Z item) max_gap
       then py_range index (index + item) else [])
      ++ gaps_of max_gap (index + item) (negb below) runs'
  end.

(** ** Sample inputs *)

Definition ts0 : datetime :=
  {| dt_year := 2023; dt_month := 12; dt_day := 15;
     dt_hour := 9; dt_minute := 36; dt_second := 53 |}.

(** The two bytes of the sample 10000 and of the sample 0. *)
Definition loud : list Byte.byte := [Byte.x10; Byte.x27].
Definition quiet : list Byte.byte := [Byte.x00; Byte.x00].

(** A mono recording of four loud samples at 4 frames per second. *)
Definition wav_4hz : wave_read :=
  {| wav_nchannels := 1; wav_sampwidth := 2; wav_framerate := 4;
     wav_nframes := 4; wav_data := loud ++ loud ++ loud ++ loud |}.

(** A mono recording at 44100 frames per second: a loud sample, ten quiet
    samples, a loud sample. *)
Definition wav_44100hz : wave_read :=
  {| wav_nchannels := 1; wav_sampwidth := 2; wav_framerate := 44100;
     wav_nframes := 12;
     wav_data := loud ++ mjoin (replicate 10 quiet) ++ loud |}.

(** A recording with two channels. *)
Definition wav_stereo : wave_read :=
  {| wav_nchannels := 2; wav_sampwidth := 2; wav_framerate := 8000;
     wav_nframes := 1; wav_data := loud ++ quiet |}.

(** ** Run lengths back to a mask *)

(** The mask a list of run lengths stands for, the first run of class
    [c], the classes alternating. *)
Fixpoint expand (c : bool) (runs : list Z) : list bool :=
  match runs with
  | [] => []
  | r :: runs' => replicate (Z.to_nat r) c ++ expand (negb c) runs'
  end.

(** ** More sample inputs *)

(** A mono recording of the two samples -32768 and -1. *)
Definition wav_min : wave_read :=
  {| wav_nchannels := 1; wav_sampwidth := 2; wav_framerate := 8000;
     wav_nframes := 2;
     wav_data := [Byte.x00; Byte.x80; Byte.xff; Byte.xff] |}.

(** A mono recording without a frame. *)
Definition wav_empty : wave_read :=
  {| wav_nchannels := 1; wav_sampwidth := 2; wav_framerate := 8000;
     wav_nframes := 0; wav_data := [] |}.

(** ** [get_filelist] and [main] of [analyze.py] *)

(** [process_map(f, l)]: the results in the order of [l]; the first
    exception in that order is raised. *)
Fixpoint process_map {A B} (f : A → result B) (l : list A)
  : result (list B) :=
  match l with
  | [] => Ok []
  | x :: l' => y ← f x; ys ← process_map f l'; Ok (y :: ys)
  end.

(** What [csv.writer] writes for a [float64]. *)
Definition cell_of_float (f : np_float) : cell :=
  match f with
  | Finite q => CFloat q
  | Infinity negative => CStr (if negative then "-inf" else "inf")
  | NaN => CStr "nan"
  end.

(** The record [csv.writer] writes for a result. *)
Definition row_of_result (r : AnalysisResult) : row :=
  [CDatetime (timestamp r); CFloat (total_time r);
   cell_of_float (bark_time r)].

(** What [main] raises: an exception of the analysis, or its own
    [FileNotFoundError]. *)
Inductive main_exn : Type :=
  | AnalysisError (e : exn)
  | FileNotFoundError (msg : string).

(** The arguments of the command line that the analysis uses. *)
Record Namespace : Type := {
  arg_input_path : string;
  arg_cutoff : Z;
  arg_max_gap : Q;
  arg_rewrite : bool
}.

(** How [main] ends: with an exception and the store of the lists and
    summary logs at that point, or without one, with that store and the
    plot files there are then.  Which plots the pool has saved when an
    exception ends [main] depends on its scheduling and is not part of the
    outcome. *)
Inductive main_outcome : Type :=
  | Raised (e : main_exn) (σ : world)
  | Done (σ : world) (plots : gset string).

Section Main.
(** The recordings are given by these functions, the summary logs by the
    [files] of the [world], the plot files by a set of paths:
    [is_file p] and [is_dir p] for the input path, [glob_mp4 d] for
    [d.glob("*.mp4")] as strings and in its order, [plot_file f] for
    [f.with_suffix(".png")], [parent p] and [joinpath p name] for
    [p.parent] and [p / name]. *)
Variable open_sound : string → result wave_read.
Variable extract_timestamp : string → result datetime.
Variables is_file is_dir : string → bool.
Variable glob_mp4 : string → list string.
Variable plot_file : string → string.
Variable parent : string → string.
Variable joinpath : string → string → string.

(** [get_filelist(input_path, rewrite)], with the plot files there
    are. *)
Definition get_filelist (input_path : string) (rewrite : bool)
    (plots : gset string) : list string :=
  if rewrite then glob_mp4 input_path
  else filter (λ file, plot_file file ∉ plots) (glob_mp4 input_path).

(** A new list object holding [rs]. *)
Definition new_list (rs : list row) (σ : world) : loc * world :=
  let l := fresh (dom (heap σ)) in
  (l, {| heap := <[l := rs]> (heap σ); files := files σ |}).

(** [write_csv] on a list made for the call; the list is in the heap, so
    the [None] of [write_csv] does not occur. *)
Definition write_csv_new (rs : list row) (file : string) (overwrite : bool)
    (σ : world) : world :=
  let '(l, σ1) := new_list rs σ in
  default σ1 (write_csv l file overwrite σ1).

(** [main(args)].  Every call of [analyze_file] is with
    [output_file="auto"]: an analysis that returns a result has saved its
    plot to [plot_file] of the recording.  The timer, the display of the
    plot and the number of workers are left out. *)
Definition main (args : Namespace) (σ : world) (plots : gset string)
  : main_outcome :=
  let input_path := arg_input_path args in
  let analyze :=
    λ file, analyze_file open_sound extract_timestamp file
              (arg_cutoff args) (arg_max_gap args) in
  if is_file input_path then
    match analyze input_path with
    | Raise e => Raised (AnalysisError e) σ
    | Ok res =>
        let summary_file := joinpath (parent input_path) "summary.csv" in
        Done (write_csv_new [row_of_result res] summary_file false σ)
             ({[plot_file input_path]} ∪ plots)
    end
  else if is_dir input_path then
    let input_files := get_filelist input_path (arg_rewrite args) plots in
    match process_map analyze input_files with
    | Raise e => Raised (AnalysisError e) σ
    | Ok results =>
        let summary_file := joinpath input_path "summary.csv" in
        Done (write_csv_new (map row_of_result results) summary_file
                (arg_rewrite args) σ)
             (list_to_set (plot_file <$> input_files) ∪ plots)
    end
  else
    Raised (FileNotFoundError
              ("Path " +:+ input_path +:+ " does not exist.")) σ.
End Main.

(** ** Sample runs of [main] *)

Definition args0 : Namespace :=
  {| arg_input_path := "2023/12"; arg_cutoff := 5000; arg_max_gap := 5;
     arg_rewrite := false |}.

Definition args_rewrite : Namespace :=
  {| arg_input_path := "2023/12"; arg_cutoff := 5000; arg_max_gap := 5;
     arg_rewrite := true |}.

Definition world0 : world := {| heap := ∅; files := ∅ |}.

Definition slash (p name : string) : string := p +:+ "/" +:+ name.

(** ** [exists] of [batch_copy.py] *)

(** What [stat] tells of a path: whether it is a regular file, and its
    size. *)
Record file_stat : Type := {
  st_is_file : bool;
  st_size : Z
}.

(** The exceptions of [exists]: the [FileNotFoundError] of
    [source.stat()] and the [ZeroDivisionError] of the division. *)
Inductive copy_exn : Type :=
  | SourceNotFoundError
  | SizeZeroDivisionError.

(** [exists(source, destination, max_size_diff)] on the file system [fs];
    [inl] is a raised exception.  [fl] rounds a real number to the nearest
    [float], as the division of two integers does; [max_size_diff] is a
    [float].  The message it prints is left out. *)
Definition exists_ (fl : Q → Q) (fs : gmap string file_stat)
    (source destination : string) (max_size_diff : Q) : copy_exn + bool :=
  if negb (from_option st_is_file false (fs !! destination)) then inr false
  else
    match fs !! source with
    | None => inl SourceNotFoundError
    | Some src =>
        let source_size := st_size src in
        let dest_size := from_option st_size 0 (fs !! destination) in
        let diff := Z.abs (dest_size - source_size) in
        if source_size =? 0 then inl SizeZeroDivisionError
        else if negb (Qle_bool (fl (inject_Z diff / inject_Z source_size)%Q)
                                max_size_diff)
        then inr false
        else inr true
    end.

(** A sample rounding, to the nearest multiple of [1 / k]. *)
Definition round_to (k : Z) (q : Q) : Q :=
  (inject_Z (Qfloor (q * inject_Z k + (1 # 2))) / inject_Z k)%Q.

(** ** [get_subfolders] of [archive.py] *)

(** [sorted(l, key=...)] on the pairs of a key and an element: a stable
    insertion. *)
Fixpoint insert_key (kx : Z * string) (l : list (Z * string))
  : list (Z * string) :=
  match l with
  | [] => [kx]
  | ky :: l' =>
      if kx.1 <=? ky.1 then kx :: l else ky :: insert_key kx l'
  end.

Definition py_sorted (l : list (Z * string)) : list (Z * string) :=
  foldr insert_key [] l.

Section Archive.
(** [to_int name] is [int(name)], the sorting key of a folder. *)
Variable to_int : string → result Z.

(** [get_subfolders(path, archive_all)]; [entries] is [path.glob("*")],
    each entry with its name and whether it is a directory.  The keys are
    taken for all folders, in order, and the folders sorted by them. *)
Definition get_subfolders (entries : list (string * bool))
    (archive_all : bool) : result (list string) :=
  let folders := (filter (λ e, e.2 = true) entries).*1 in
  keyed ← process_map (λ name, k ← to_int name; Ok (k, name)) folders;
  let subfolders := (py_sorted keyed).*2 in
  if archive_all then Ok subfolders
  else match subfolders with
       | [] => Raise IndexError
       | _ :: _ => Ok (removelast subfolders)
       end.
End Archive.

(** Two folders in the order of their numbers. *)
Definition key_le (to_int : string → result Z) (a b : string) : Prop :=
  ∃ ka kb, to_int a = Ok ka ∧ to_int b = Ok kb ∧ ka ≤ kb.

(** The listing of a year: three months and a file. *)
Definition year_entries : list (string * bool) :=
  [("10", true); ("9", true); ("summary.png", false); ("11", true)].

(** [int] on names that are decimal numbers without a sign, and the
    [ValueError] otherwise; enough for the sample folders. *)
Definition sample_int (name : string) : result Z :=
  if String.eqb name "10" then Ok 10
  else if String.eqb name "11" then Ok 11
  else if String.eqb name "9" then Ok 9
  else Raise (ValueError "invalid literal for int() with base 10").

(** ** [extract_timestamp] of [utils.py] *)

(** [s.split(sep)] for a separator of one character. *)
Fixpoint py_split (sep : Ascii.ascii) (s : string) : list string :=
  match s with
  | EmptyString => [EmptyString]
  | String c s' =>
      if Ascii.eqb c sep then EmptyString :: py_split sep s'
      else match py_split sep s' with
           | w :: ws => String c w :: ws
           | [] => [String c EmptyString]
           end
  end.

(** [sep.join(l)]. *)
Fixpoint py_join (sep : string) (l : list string) : string :=
  match l with
  | [] => EmptyString
  | [w] => w
  | w :: l' => w +:+ sep +:+ py_join sep l'
  end.

Section Timestamp.
(** [path_name p] is [Path(p).name] and [strptime s fmt] is
    [datetime.strptime(s, fmt)]. *)
Variable path_name : string → string.
Variable strptime : string → string → result datetime.

(** [extract_timestamp(file_path)]. *)
Definition extract_timestamp (file_path : string) : result datetime :=
  let filename := path_name file_path in
  let filename := py_join "_" (take 2 (py_split "_"%char filename)) in
  strptime filename "%Y%m%d_%H%M%S".
End Timestamp.

(** A [strptime] that knows one name. *)
Definition sample_strptime (s fmt : string) : result datetime :=
  if String.eqb s "20231215_093653" then Ok ts0
  else Raise (ValueError "time data does not match format").

(** A string without the character [c]. *)
Fixpoint free_of (c : Ascii.ascii) (s : string) : bool :=
  match s with
  | EmptyString => true
  | String c' s' => negb (Ascii.eqb c' c) && free_of c s'
  end.

(** * Properties *)

(** ** The run lengths *)

Lemma py_index_0 {A} (x : A) (l : list A) : py_index (x :: l) 0 = Ok x.
Proof.
  unfold py_index.
  replace (0 <? 0) with false by reflexivity.
  replace (0 <=? 0) with true by reflexivity.
  destruct (Z.ltb_spec 0 (Z.of_nat (length (x :: l)))) as [_ | H].
  - reflexivity.
  - cbn [length] in H. lia.
Qed.

Lemma py_index_nil {A} (i : Z) : py_index (@nil A) i = Raise IndexError.
Proof.
  unfold py_index. cbn [length].
  destruct ((0 <=? _) && (_ <? _)) eqn:E; [| reflexivity].
  apply andb_true_iff in E as [E1 E2]. destruct (i <? 0) eqn:Ei; lia.
Qed.

Lemma np_diff_cons2 (k k' : Z) (w : list Z) :
  np_diff (k :: k' :: w) = (k' - k) :: np_diff (k' :: w).
Proof. reflexivity. Qed.

Lemma np_diff_where (m : list bool) : ∀ (c : bool) (k cnt : Z),
  np_diff (k :: where_from (k + cnt) (np_ne (removelast (c :: m)) m ++ [true]))
  = runs_from c cnt m.
Proof.
  induction m as [| b m IH]; intros c k cnt.
  - cbn. f_equal. lia.
  - change (removelast (c :: b :: m)) with (c :: removelast (b :: m)).
    cbn [np_ne zip_with app where_from runs_from].
    fold (np_ne (removelast (b :: m)) m).
    destruct (xorb c b) eqn:E.
    + rewrite np_diff_cons2, IH. f_equal. lia.
    + replace (k + cnt + 1) with (k + (cnt + 1)) by lia.
      destruct c, b; try discriminate; apply IH.
Qed.

Lemma runs_from_negb (m : list bool) : ∀ (c : bool) (cnt : Z),
  runs_from (negb c) cnt (map negb m) = runs_from c cnt m.
Proof.
  induction m as [| b m IH]; intros c cnt; [reflexivity |].
  cbn [map runs_from]. rewrite xorb_negb_negb.
  destruct (xorb c b); [f_equal |]; apply IH.
Qed.

Lemma run_lengths_cons (m : list bool) :
  run_lengths (true :: m) = Ok (runs_from true 1 m).
Proof.
  unfold run_lengths. rewrite py_index_0. cbn [mbind result_bind].
  f_equal. unfold np_where. cbn [app tail where_from].
  apply (np_diff_where m true 0 1).
Qed.

(** ** The loop over the run lengths *)

Lemma fold_patch_step (max_gap : Q) (runs : list Z) :
  ∀ (index : Z) (below : bool) (gaps : list Z),
  (fold_left (patch_step max_gap) runs (index, below, gaps)).2
  = gaps ++ gaps_of max_gap index below runs.
Proof.
  induction runs as [| item runs IH]; intros index below gaps.
  - cbn. by rewrite app_nil_r.
  - cbn [fold_left patch_step gaps_of]. rewrite IH.
    destruct (below && Qle_bool (inject_Z item) max_gap).
    + by rewrite <- app_assoc.
    + reflexivity.
Qed.

(** ** Writing at a list of indices *)

Lemma np_setitem_app {A} (idx1 idx2 : list Z) (v : A) : ∀ a : list A,
  np_setitem a (idx1 ++ idx2) v
  = a' ← np_setitem a idx1 v; np_setitem a' idx2 v.
Proof.
  induction idx1 as [| i idx1 IH]; intros a; [reflexivity |].
  cbn [app np_setitem]. destruct (py_setitem a i v) as [a' | e].
  - cbn [mbind result_bind]. apply IH.
  - reflexivity.
Qed.

Lemma py_setitem_middle {A} (pre rest : list A) (x v : A) :
  py_setitem (pre ++ x :: rest) (Z.of_nat (length pre)) v
  = Ok (pre ++ v :: rest).
Proof.
  unfold py_setitem. rewrite length_app. cbn [length].
  destruct (Z.of_nat (length pre) <? 0) eqn:E; [lia |].
  destruct ((0 <=? _) && (_ <? _)) eqn:E'; [| lia].
  rewrite Nat2Z.id. f_equal.
  replace (length pre) with (length pre + 0)%nat at 1 by lia.
  by rewrite insert_app_r.
Qed.

Lemma np_setitem_range {A} (cur : list A) (v : A) : ∀ pre rest : list A,
  np_setitem (pre ++ cur ++ rest)
    (py_range (Z.of_nat (length pre))
              (Z.of_nat (length pre) + Z.of_nat (length cur))) v
  = Ok (pre ++ replicate (length cur) v ++ rest).
Proof.
  unfold py_range.
  induction cur as [| x cur IH]; intros pre rest.
  - cbn. replace (_ + 0 - _) with 0 by lia. reflexivity.
  - rewrite seqZ_cons by (cbn [length]; lia).
    cbn [np_setitem app]. rewrite py_setitem_middle.
    cbn [mbind result_bind].
    specialize (IH (pre ++ [v]) rest).
    rewrite length_app in IH. cbn [length] in IH.
    rewrite <- !app_assoc in IH. cbn [app] in IH.
    cbn [length replicate app]. rewrite <- IH. f_equal. f_equal; lia.
Qed.

(** ** [patch_signal] is the run-by-run scan *)

Section PatchScan.
Variables (cutoff : Z) (max_gap : Q).

Lemma length_flush (c : bool) (cur : list Z) :
  length (flush cutoff max_gap c cur) = length cur.
Proof.
  unfold flush. destruct (negb c && _); [apply length_replicate | done].
Qed.

Lemma np_setitem_flush (c : bool) (pre cur rest : list Z) :
  np_setitem (pre ++ cur ++ rest)
    (if negb c && Qle_bool (inject_Z (Z.of_nat (length cur))) max_gap
     then py_range (Z.of_nat (length pre))
                   (Z.of_nat (length pre) + Z.of_nat (length cur))
     else [])
    (cutoff + 1)
  = Ok (pre ++ flush cutoff max_gap c cur ++ rest).
Proof.
  unfold flush. destruct (negb c && _).
  - apply np_setitem_range.
  - reflexivity.
Qed.

Lemma np_setitem_gaps (rest : list Z) : ∀ (pre cur : list Z) (c : bool),
  np_setitem (pre ++ cur ++ rest)
    (gaps_of max_gap (Z.of_nat (length pre)) (negb c)
       (runs_from c (Z.of_nat (length cur)) (map (high cutoff) rest)))
    (cutoff + 1)
  = Ok (pre ++ scan cutoff max_gap c cur rest).
Proof.
  induction rest as [| x rest IH]; intros pre cur c.
  - cbn [map runs_from gaps_of scan].
    rewrite (app_nil_r (if _ : bool then _ else _)).
    rewrite np_setitem_flush. by rewrite app_nil_r.
  - cbn [map runs_from scan]. destruct (xorb c (high cutoff x)) eqn:E.
    + cbn [gaps_of]. rewrite np_setitem_app, np_setitem_flush.
      cbn [mbind result_bind].
      specialize (IH (pre ++ flush cutoff max_gap c cur) [x]
                     (high cutoff x)).
      rewrite length_app, length_flush, Nat2Z.inj_add in IH.
      rewrite <- app_assoc in IH. cbn [length app] in IH.
      replace (negb (negb c)) with (negb (high cutoff x))
        by (destruct c, (high cutoff x); done).
      rewrite <- app_assoc in IH. apply IH.
    + specialize (IH pre (cur ++ [x]) c).
      rewrite length_app, Nat2Z.inj_add in IH. cbn [length] in IH.
      rewrite <- app_assoc in IH. apply IH.
Qed.

Lemma np_le_negb (signal : list Z) :
  np_le signal cutoff = map negb (map (high cutoff) signal).
Proof.
  unfold np_le, high. rewrite map_map. apply map_ext. intros x.
  apply Z.leb_antisym.
Qed.

(** On a signal that is not empty, when [cutoff + 1] fits the type of the
    array, [patch_signal] returns what the scan computes from the first
    sample on. *)
Lemma patch_signal_scan (dt : dtype) (s0 : Z) (rest : list Z) :
  fits dt (cutoff + 1) = true →
  patch_signal dt (s0 :: rest) cutoff max_gap
  = Ok (scan cutoff max_gap (high cutoff s0) [s0] rest).
Proof.
  intros Hfits. unfold patch_signal, np_setitem_int. rewrite Hfits.
  rewrite py_index_0. cbn [mbind result_bind].
  assert (Hruns : ∀ below gaps,
    (let '(_, _, gaps) :=
       fold_left (patch_step max_gap)
         (runs_from (high cutoff s0) 1 (map (high cutoff) rest))
         (0, below, gaps) in
     np_setitem (s0 :: rest) gaps (cutoff + 1))
    = np_setitem (s0 :: rest)
        (gaps ++ gaps_of max_gap 0 below
           (runs_from (high cutoff s0) 1 (map (high cutoff) rest)))
        (cutoff + 1)).
  { intros below gaps. rewrite <- fold_patch_step.
    by destruct (fold_left _ _ _) as [[? ?] ?]. }
  pose proof (np_setitem_gaps rest [] [s0] (high cutoff s0)) as Hset.
  cbn [length app] in Hset.
  fold (high cutoff s0). destruct (high cutoff s0) eqn:E.
  - unfold np_gt. fold (high cutoff). cbn [map]. fold (high cutoff s0).
    rewrite E, run_lengths_cons. cbn [mbind result_bind].
    rewrite Hruns. apply Hset.
  - rewrite np_le_negb. cbn [map]. rewrite E. cbn [negb].
    rewrite run_lengths_cons. cbn [mbind result_bind].
    change true with (negb false) at 1. rewrite runs_from_negb.
    rewrite Hruns. apply Hset.
Qed.

(** When [cutoff + 1] does not fit, the write fails. *)
Lemma patch_signal_overflow (dt : dtype) (s0 : Z) (rest : list Z) :
  fits dt (cutoff + 1) = false →
  patch_signal dt (s0 :: rest) cutoff max_gap = Raise OverflowError.
Proof.
  intros Hfits. unfold patch_signal, np_setitem_int. rewrite Hfits.
  rewrite py_index_0. cbn [mbind result_bind].
  destruct (high cutoff s0) eqn:E; unfold high in E; rewrite E.
  - unfold np_gt. cbn [map]. rewrite E, run_lengths_cons.
    cbn [mbind result_bind]. by destruct (fold_left _ _ _) as [[? ?] ?].
  - unfold np_le. cbn [map].
    rewrite (Z.leb_antisym cutoff s0), E. cbn [negb].
    rewrite run_lengths_cons.
    cbn [mbind result_bind]. by destruct (fold_left _ _ _) as [[? ?] ?].
Qed.
End PatchScan.

(** ** The scan, run by run *)

Section Scan.
Variables (cutoff : Z) (max_gap : Q).
Local Abbreviation fl := (flush cutoff max_gap).
Local Abbreviation sc := (scan cutoff max_gap).
Local Abbreviation hi := (high cutoff).

Lemma length_scan (rest : list Z) : ∀ (c : bool) (cur : list Z),
  length (sc c cur rest) = (length cur + length rest)%nat.
Proof.
  induction rest as [| x rest IH]; intros c cur; cbn [scan].
  - rewrite length_flush. cbn. lia.
  - destruct (xorb c (hi x)).
    + rewrite length_app, length_flush, IH. cbn. lia.
    + rewrite IH, length_app. cbn. lia.
Qed.

(** Reading the rest of a run: the scan patches the whole run and goes
    on after it. *)
Lemma scan_run (c : bool) (run post : list Z) : ∀ acc : list Z,
  Forall (λ x, hi x = c) run →
  (∀ y, head post = Some y → hi y = negb c) →
  ∃ post', length post' = length post ∧
    sc c acc (run ++ post) = fl c (acc ++ run) ++ post'.
Proof.
  induction run as [| x run IH]; intros acc Hrun Hpost.
  - rewrite app_nil_r. cbn [app]. destruct post as [| y post].
    + exists []. cbn [scan]. by rewrite app_nil_r.
    + exists (sc (hi y) [y] post). split.
      * rewrite length_scan. reflexivity.
      * cbn [scan]. rewrite (Hpost y eq_refl).
        by destruct c.
  - apply Forall_cons in Hrun as [Hx Hrun].
    destruct (IH (acc ++ [x]) Hrun Hpost) as (post' & Hlen & Heq).
    exists post'. split; [done |].
    cbn [app scan]. rewrite Hx.
    replace (xorb c c) with false by (by destruct c).
    rewrite Heq, <- app_assoc. reflexivity.
Qed.

(** Reading up to the start of a run: the scan restarts there. *)
Lemma scan_prefix (x : Z) (tl pre : list Z) : ∀ (b : bool) (acc : list Z),
  (∀ y, last pre = Some y → hi y = negb (hi x)) →
  (pre = [] → b = negb (hi x)) →
  ∃ pre', length pre' = (length acc + length pre)%nat ∧
    sc b acc (pre ++ x :: tl) = pre' ++ sc (hi x) [x] tl.
Proof.
  induction pre as [| z pre IH]; intros b acc Hlast Hnil.
  - exists (fl b acc). split.
    + rewrite length_flush. cbn. lia.
    + cbn [app scan]. rewrite (Hnil eq_refl).
      by destruct (hi x).
  - assert (Hlast' : ∀ y, last pre = Some y → hi y = negb (hi x)).
    { intros y Hy. apply Hlast. rewrite last_cons, Hy. reflexivity. }
    assert (Hz : pre = [] → hi z = negb (hi x)).
    { intros ->. by apply Hlast. }
    cbn [app scan]. destruct (xorb b (hi z)) eqn:E.
    + destruct (IH (hi z) [z] Hlast' Hz) as (pre' & Hlen & Heq).
      exists (fl b acc ++ pre'). split.
      * rewrite length_app, length_flush, Hlen. cbn. lia.
      * rewrite Heq, <- app_assoc. reflexivity.
    + assert (Hb : pre = [] → b = negb (hi x)).
      { intros Hpre. rewrite <- (Hz Hpre). by destruct b, (hi z). }
      destruct (IH b (acc ++ [z]) Hlast' Hb) as (pre' & Hlen & Heq).
      exists pre'. split; [| done].
      rewrite Hlen, length_app. cbn. lia.
Qed.

(** The sc changes a sample only by patching it. *)
Lemma scan_patched (rest : list Z) : ∀ (c : bool) (cur : list Z),
  Forall (λ x, hi x = c) cur →
  Forall2 (patched cutoff) (cur ++ rest) (sc c cur rest).
Proof.
  assert (Hflush : ∀ c cur, Forall (λ x, hi x = c) cur →
            Forall2 (patched cutoff) cur (fl c cur)).
  { intros c cur Hcur. unfold flush.
    destruct (negb c && _) eqn:E.
    - apply andb_true_iff in E as [Hc _]. destruct c; [done |].
      apply Forall2_replicate_r; [done |].
      eapply Forall_impl; [exact Hcur |]. intros x Hx. by right.
    - apply Forall_Forall2_diag. apply Forall_forall. intros x _. by left. }
  induction rest as [| x rest IH]; intros c cur Hcur; cbn [scan].
  - rewrite app_nil_r. by apply Hflush.
  - destruct (xorb c (hi x)) eqn:E.
    + apply Forall2_app; [by apply Hflush |].
      apply (IH (hi x) [x]). by constructor.
    + replace (cur ++ x :: rest) with ((cur ++ [x]) ++ rest)
        by (by rewrite <- app_assoc).
      apply IH. apply Forall_app. split; [done |].
      constructor; [| done]. by destruct c, (hi x).
Qed.
End Scan.

(** ** [patch_signal] on the runs of its argument *)

Section PatchRuns.
Variables (cutoff : Z) (max_gap : Q) (dt : dtype).
Hypothesis Hfits : fits dt (cutoff + 1) = true.

(** The shared form of the run properties: at the place of a maximal run
    of the signal, the result holds that run after [flush]. *)
Lemma patch_signal_run (c : bool) (pre run post : list Z) :
  maximal_run cutoff c pre run post →
  ∃ pre' post', length pre' = length pre ∧ length post' = length post ∧
    patch_signal dt (pre ++ run ++ post) cutoff max_gap
    = Ok (pre' ++ flush cutoff max_gap c run ++ post').
Proof.
  intros (Hne & Hrun & Hpre & Hpost).
  destruct run as [| x run]; [done |].
  apply Forall_cons in Hrun as [Hx Hrun].
  destruct pre as [| s0 pre].
  - cbn [app]. rewrite patch_signal_scan, Hx by done.
    destruct (scan_run cutoff max_gap c run post [x] Hrun Hpost)
      as (post' & Hlen & Heq).
    exists [], post'. by rewrite Heq.
  - cbn [app]. rewrite patch_signal_scan by done.
    destruct (scan_prefix cutoff max_gap x (run ++ post) pre
                (high cutoff s0) [s0]) as (pre' & Hlen & Heq).
    { intros y Hy. rewrite Hx. apply Hpre. by rewrite last_cons, Hy. }
    { intros ->. rewrite Hx. by apply Hpre. }
    destruct (scan_run cutoff max_gap c run post [x] Hrun Hpost)
      as (post' & Hlen' & Heq').
    exists pre', post'. rewrite Heq, Hx, Heq'. by rewrite Hlen.
Qed.

(** A signal that is not empty is patched without an error, sample by
    sample. *)
Lemma patch_signal_patched (signal : list Z) :
  signal ≠ [] →
  ∃ out, patch_signal dt signal cutoff max_gap = Ok out ∧
    length out = length signal ∧ Forall2 (patched cutoff) signal out.
Proof.
  destruct signal as [| s0 rest]; [done |]. intros _.
  exists (scan cutoff max_gap (high cutoff s0) [s0] rest).
  split; [by apply patch_signal_scan |]. split.
  - by rewrite length_scan.
  - apply (scan_patched cutoff max_gap rest (high cutoff s0) [s0]).
    by constructor.
Qed.

End PatchRuns.

Lemma segment_middle {A} (pre seg post : list A) (n k : nat) :
  n = length pre → k = length seg →
  take k (drop n (pre ++ seg ++ post)) = seg.
Proof. intros -> ->. by rewrite drop_app_length, take_app_length. Qed.

(** ** The pointwise relation between a signal and its patch *)

Section Patched.
Variable cutoff : Z.

Lemma patched_lookup (signal out : list Z) (i : nat) (x : Z) :
  Forall2 (patched cutoff) signal out → signal !! i = Some x →
  ∃ y, out !! i = Some y ∧ patched cutoff x y.
Proof.
  intros H Hx. destruct (Forall2_lookup_l _ _ _ _ _ H Hx) as (y & ? & ?).
  by exists y.
Qed.

Lemma patched_high (x y : Z) :
  patched cutoff x y → high cutoff x = true → y = x.
Proof. intros [-> | [Hx _]] H; [done | congruence]. Qed.

Lemma patched_stays_high (x y : Z) :
  patched cutoff x y → high cutoff x = true → high cutoff y = true.
Proof. intros H Hx. by rewrite (patched_high x y H Hx). Qed.

Lemma count_high_patched (signal out : list Z) :
  Forall2 (patched cutoff) signal out →
  count_high cutoff signal ≤ count_high cutoff out.
Proof.
  unfold count_high.
  induction 1 as [| x y signal out Hxy _ IH]; [done |].
  rewrite !filter_cons.
  destruct (decide (cutoff < x)) as [Hx | Hx],
           (decide (cutoff < y)) as [Hy | Hy]; cbn [length]; try lia.
  exfalso. destruct Hxy as [-> | [Hlow _]]; [done |].
  unfold high in Hlow. lia.
Qed.

(** The count the code takes from the mask, [np.count_nonzero(signal >
    cutoff)], is the number of samples strictly above the cutoff. *)
Lemma np_count_nonzero_gt (signal : list Z) :
  np_count_nonzero (np_gt signal cutoff) = count_high cutoff signal.
Proof.
  unfold np_count_nonzero, np_gt, count_high. f_equal.
  induction signal as [| x signal IH]; [done |].
  cbn [map]. rewrite !filter_cons.
  destruct (Z.ltb_spec cutoff x) as [Hx | Hx].
  - destruct (decide (true = true)); [| done].
    destruct (decide (cutoff < x)); [| lia]. cbn [length]. by rewrite IH.
  - destruct (decide (false = true)); [done |].
    destruct (decide (cutoff < x)); [lia | done].
Qed.
End Patched.

(** ** Every sample lies in a maximal run *)

Lemma run_right (cutoff : Z) (c : bool) (l : list Z) :
  ∃ a post, l = a ++ post ∧ Forall (λ x, high cutoff x = c) a ∧
    (∀ y, head post = Some y → high cutoff y = negb c).
Proof.
  induction l as [| x l (a & post & -> & Ha & Hpost)].
  - exists [], []. by repeat split.
  - destruct (decide (high cutoff x = c)) as [Hx | Hx].
    + exists (x :: a), post. repeat split; [by constructor | done].
    + exists [], (x :: a ++ post). repeat split; [done |].
      intros y [= <-]. by destruct (high cutoff x), c.
Qed.

Lemma run_left (cutoff : Z) (c : bool) (l : list Z) :
  ∃ pre a, l = pre ++ a ∧ Forall (λ x, high cutoff x = c) a ∧
    (∀ y, last pre = Some y → high cutoff y = negb c).
Proof.
  induction l as [| x l (pre & a & -> & Ha & Hpre)] using rev_ind.
  - exists [], []. by repeat split.
  - destruct (decide (high cutoff x = c)) as [Hx | Hx].
    + exists pre, (a ++ [x]). rewrite app_assoc. repeat split; [| done].
      apply Forall_app. split; [done |]. by constructor.
    + exists ((pre ++ a) ++ [x]), []. rewrite app_nil_r.
      repeat split; [done |].
      intros y. rewrite last_snoc. intros [= <-].
      by destruct (high cutoff x), c.
Qed.

Lemma maximal_run_cover (cutoff : Z) (signal : list Z) (i : nat) (x : Z) :
  signal !! i = Some x →
  ∃ pre run post, signal = pre ++ run ++ post ∧
    maximal_run cutoff (high cutoff x) pre run post ∧
    (length pre ≤ i < length pre + length run)%nat.
Proof.
  intros Hx. pose proof (lookup_lt_Some _ _ _ Hx) as Hi.
  rewrite <- (take_drop_middle _ _ _ Hx).
  destruct (run_left cutoff (high cutoff x) (take i signal))
    as (pre & a1 & E1 & Ha1 & Hpre).
  destruct (run_right cutoff (high cutoff x) (drop (S i) signal))
    as (a2 & post & E2 & Ha2 & Hpost).
  exists pre, (a1 ++ x :: a2), post. split; [| split].
  - rewrite E1, E2, <- !app_assoc. reflexivity.
  - split; [by destruct a1 |]. split; [| done].
    apply Forall_app. split; [done |]. by constructor.
  - assert (length (take i signal) = i) as Hlen
      by (rewrite length_take; lia).
    rewrite E1, length_app in Hlen. rewrite length_app. cbn [length]. lia.
Qed.

(** ** What [flush] does, by class and length *)

Lemma flush_high (cutoff : Z) (max_gap : Q) (run : list Z) :
  flush cutoff max_gap true run = run.
Proof. reflexivity. Qed.

Lemma flush_low_le (cutoff : Z) (max_gap : Q) (run : list Z) :
  (inject_Z (Z.of_nat (length run)) <= max_gap)%Q →
  flush cutoff max_gap false run = replicate (length run) (cutoff + 1).
Proof.
  intros H. unfold flush. apply Qle_bool_iff in H. by rewrite H.
Qed.

Lemma flush_low_gt (cutoff : Z) (max_gap : Q) (run : list Z) :
  ¬ (inject_Z (Z.of_nat (length run)) <= max_gap)%Q →
  flush cutoff max_gap false run = run.
Proof.
  intros H. unfold flush.
  destruct (Qle_bool _ max_gap) eqn:E; [| done].
  apply Qle_bool_iff in E. contradiction.
Qed.

Lemma high_true (cutoff x : Z) : high cutoff x = true ↔ cutoff < x.
Proof. unfold high. lia. Qed.

Lemma high_false (cutoff x : Z) : high cutoff x = false ↔ x ≤ cutoff.
Proof. unfold high. lia. Qed.

Lemma high_succ (cutoff : Z) : high cutoff (cutoff + 1) = true.
Proof. unfold high. lia. Qed.

(** ** The claims on [patch_signal] *)

(** On an array of 16-bit samples, as [read_sound_file] returns them, and
    the cutoff 32767, all five samples are low and make one run, which a
    gap of five samples is to turn high.  The value [cutoff + 1] the
    patch writes is not a 16-bit integer: the write raises, and no run is
    classified.  (A NumPy that wraps the value instead stores -32768,
    which is not high.) *)
Lemma patch_signal_runs_counterexample :
  patch_signal int16 [0; 200; 0; 0; 0] 32767 5 = Raise OverflowError ∧
  maximal_run 32767 false [] [0; 200; 0; 0; 0] [] ∧
  (inject_Z (Z.of_nat (length [0; 200; 0; 0; 0])) <= 5)%Q.
Proof.
  split; [reflexivity |]. split; [| discriminate].
  split; [done |]. split; [by repeat constructor | by split].
Qed.

(** C1, amended.  For a signal that is not empty, a cutoff such that
    [cutoff + 1] is a value of the integer type of the array, and a gap of
    at least one sample, [patch_signal] returns an array of the same length in
    which, for the partition of the signal into maximal runs (every sample
    lies in one): the samples of every high run are still high; the
    samples of every low run of length at most [max_gap] are high; the
    samples of every low run longer than [max_gap] are still low.  A run
    at the start ([pre] empty) or at the end ([post] empty) of the signal
    is a run like any other. *)
Theorem patch_signal_runs (dt : dtype) (signal : list Z) (cutoff : Z)
    (max_gap : Q) :
  signal ≠ [] → (1 <= max_gap)%Q → fits dt (cutoff + 1) = true →
  ∃ out, patch_signal dt signal cutoff max_gap = Ok out ∧
    length out = length signal ∧
    (∀ (i : nat) (x : Z), signal !! i = Some x →
       ∃ pre run post, signal = pre ++ run ++ post ∧
         maximal_run cutoff (high cutoff x) pre run post ∧
         (length pre ≤ i < length pre + length run)%nat) ∧
    (∀ (c : bool) (pre run post : list Z),
       signal = pre ++ run ++ post →
       maximal_run cutoff c pre run post →
       let seg := take (length run) (drop (length pre) out) in
       let len := inject_Z (Z.of_nat (length run)) in
       length seg = length run ∧
       (c = true → Forall (λ y, cutoff < y) seg) ∧
       (c = false → (len <= max_gap)%Q → Forall (λ y, cutoff < y) seg) ∧
       (c = false → ¬ (len <= max_gap)%Q → Forall (λ y, y ≤ cutoff) seg)).
Proof.
  intros Hne _ Hfits.
  destruct (patch_signal_patched cutoff max_gap dt Hfits signal Hne)
    as (out & Hout & Hlen & _).
  exists out. split; [done |]. split; [done |]. split.
  { intros i x. apply maximal_run_cover. }
  intros c pre run post -> Hrun.
  destruct (patch_signal_run cutoff max_gap dt Hfits c pre run post Hrun)
    as (pre' & post' & Hpre' & Hpost' & Heq).
  rewrite Heq in Hout. injection Hout as <-.
  cbn zeta. rewrite segment_middle by (by rewrite ?length_flush).
  destruct Hrun as (_ & Hall & _).
  split; [apply length_flush |]. split; [| split].
  - intros ->. rewrite flush_high.
    eapply Forall_impl; [exact Hall |]. intros y. apply high_true.
  - intros -> Hle. rewrite flush_low_le by done.
    apply Forall_replicate. lia.
  - intros -> Hgt. rewrite flush_low_gt by done.
    eapply Forall_impl; [exact Hall |]. intros y. apply high_false.
Qed.

Lemma patch_signal_runs_witness :
  [0; 200; 0; 0; 0] ≠ [] ∧ (1 <= 2)%Q ∧ fits int16 (100 + 1) = true ∧
  ∃ out, patch_signal int16 [0; 200; 0; 0; 0] 100 2 = Ok out ∧
    length out = length [0; 200; 0; 0; 0].
Proof.
  split; [discriminate |]. split; [discriminate |]. split; [reflexivity |].
  destruct (patch_signal_runs int16 [0; 200; 0; 0; 0] 100 2)
    as (out & H1 & H2 & _).
  - discriminate.
  - discriminate.
  - reflexivity.
  - exists out. split; assumption.
Defined.

(** On an array of four 16-bit samples, the cutoff 32767 and a gap of
    four samples, the write of [cutoff + 1] = 32768 to the four places
    raises: there is no patched array to count the high samples of. *)
Lemma patch_signal_count_counterexample :
  (0 <= 4)%Q ∧
  patch_signal int16 [0; 0; 200; 0] 32767 4 = Raise OverflowError.
Proof. split; [discriminate | reflexivity]. Qed.

(** C6, amended.  For a signal that is not empty, a cutoff such that
    [cutoff + 1] is a value of the integer type of the array, and a gap
    that is not negative, the patched array has at least as many high
    samples as the signal, and no high sample of the signal has become
    low. *)
Theorem patch_signal_count (dt : dtype) (signal : list Z) (cutoff : Z)
    (max_gap : Q) :
  signal ≠ [] → (0 <= max_gap)%Q → fits dt (cutoff + 1) = true →
  ∃ out, patch_signal dt signal cutoff max_gap = Ok out ∧
    count_high cutoff signal ≤ count_high cutoff out ∧
    (∀ (i : nat) (x : Z), signal !! i = Some x → cutoff < x →
       ∃ y, out !! i = Some y ∧ cutoff < y).
Proof.
  intros Hne _ Hfits.
  destruct (patch_signal_patched cutoff max_gap dt Hfits signal Hne)
    as (out & Hout & _ & Hall).
  exists out. split; [done |]. split.
  - by apply count_high_patched.
  - intros i x Hx Hhigh.
    destruct (patched_lookup cutoff signal out i x Hall Hx) as (y & Hy & Hp).
    exists y. split; [done |].
    apply high_true. eapply patched_stays_high; [exact Hp |].
    by apply high_true.
Qed.

Lemma patch_signal_count_witness :
  [0; 0; 200; 0] ≠ [] ∧ (0 <= 2)%Q ∧ fits int16 (100 + 1) = true ∧
  ∃ out, patch_signal int16 [0; 0; 200; 0] 100 2 = Ok out ∧
    count_high 100 [0; 0; 200; 0] ≤ count_high 100 out.
Proof.
  split; [discriminate |]. split; [discriminate |]. split; [reflexivity |].
  destruct (patch_signal_count int16 [0; 0; 200; 0] 100 2)
    as (out & H1 & H2 & _).
  - discriminate.
  - discriminate.
  - reflexivity.
  - exists out. split; assumption.
Defined.

(** Two 16-bit samples, both at most the cutoff 32767, and a gap of two
    samples: the signal is no longer than the gap, and it does not become
    high, the write of 32768 raises. *)
Lemma patch_signal_all_low_counterexample :
  Forall (λ x, x ≤ 32767) [0; 0] ∧
  patch_signal int16 [0; 0] 32767 2 = Raise OverflowError.
Proof. split; [repeat constructor; lia | reflexivity]. Qed.

(** C7, amended.  For a signal that is not empty and whose samples are all
    at most the cutoff, a cutoff such that [cutoff + 1] is a value of the
    integer type of the array, and a gap of at least one sample: the
    patched array is entirely high exactly when the length of the signal
    is at most [max_gap]; when the length is greater it is entirely
    low. *)
Theorem patch_signal_all_low (dt : dtype) (signal : list Z) (cutoff : Z)
    (max_gap : Q) :
  signal ≠ [] → Forall (λ x, x ≤ cutoff) signal → (1 <= max_gap)%Q →
  fits dt (cutoff + 1) = true →
  ∃ out, patch_signal dt signal cutoff max_gap = Ok out ∧
    length out = length signal ∧
    let len := inject_Z (Z.of_nat (length signal)) in
    (Forall (λ y, cutoff < y) out ↔ (len <= max_gap)%Q) ∧
    (¬ (len <= max_gap)%Q → Forall (λ y, y ≤ cutoff) out).
Proof.
  intros Hne Hlow _ Hfits.
  assert (Hrun : maximal_run cutoff false [] signal []).
  { split; [done |]. split; [| by split].
    eapply Forall_impl; [exact Hlow |]. intros x. apply high_false. }
  destruct (patch_signal_run cutoff max_gap dt Hfits false [] signal [] Hrun)
    as (pre' & post' & Hpre' & Hpost' & Heq).
  destruct pre'; [| done]. destruct post'; [| done].
  cbn [app] in Heq. rewrite !app_nil_r in Heq.
  exists (flush cutoff max_gap false signal).
  split; [done |]. split; [apply length_flush |]. cbn zeta.
  destruct (Qlt_le_dec max_gap (inject_Z (Z.of_nat (length signal))))
    as [Hgt | Hle].
  - apply Qlt_not_le in Hgt. rewrite flush_low_gt by done. split; [| done].
    split; [| done]. intros Hhigh.
    destruct signal as [| x signal]; [done |].
    apply Forall_cons in Hlow as [Hx _]. apply Forall_cons in Hhigh as [Hx' _].
    lia.
  - rewrite flush_low_le by done. split; [| done].
    split; [done |]. intros _. apply Forall_replicate. lia.
Qed.

Lemma patch_signal_all_low_witness :
  [0; 0] ≠ [] ∧ Forall (λ x, x ≤ 100) [0; 0] ∧ (1 <= 2)%Q ∧
  fits int16 (100 + 1) = true ∧
  ∃ out, patch_signal int16 [0; 0] 100 2 = Ok out ∧
    length out = length [0; 0].
Proof.
  assert (H : Forall (λ x, x ≤ 100) [0; 0]) by (repeat constructor; lia).
  split; [discriminate |]. split; [exact H |]. split; [discriminate |].
  split; [reflexivity |].
  destruct (patch_signal_all_low int16 [0; 0] 100 2) as (out & H1 & H2 & _).
  - discriminate.
  - exact H.
  - discriminate.
  - reflexivity.
  - exists out. split; assumption.
Defined.

(** Three 16-bit samples, the cutoff 32767 and a gap of three samples:
    the samples make one low run of length three, and no array is
    returned whose elements are [cutoff + 1] = 32768, a value that no
    16-bit array can hold. *)
Lemma patch_signal_values_counterexample :
  patch_signal int16 [200; 0; 200] 32767 3 = Raise OverflowError ∧
  fits int16 (32767 + 1) = false.
Proof. split; reflexivity. Qed.

(** C9, amended.  For a signal that is not empty, a cutoff such that
    [cutoff + 1] is a value of the integer type of the array, and a gap of
    at least one sample,
    every element of the array [patch_signal] returns is the sample at its
    place or [cutoff + 1]: it is the sample for every sample strictly
    above the cutoff and for every sample of a low run longer than
    [max_gap], and it is [cutoff + 1] for every sample of a low run of
    length at most [max_gap]. *)
Theorem patch_signal_values (dt : dtype) (signal : list Z) (cutoff : Z)
    (max_gap : Q) :
  signal ≠ [] → (1 <= max_gap)%Q → fits dt (cutoff + 1) = true →
  ∃ out, patch_signal dt signal cutoff max_gap = Ok out ∧
    length out = length signal ∧
    (∀ (i : nat) (x : Z), signal !! i = Some x →
       out !! i = Some x ∨ out !! i = Some (cutoff + 1)) ∧
    (∀ (i : nat) (x : Z), signal !! i = Some x → cutoff < x →
       out !! i = Some x) ∧
    (∀ (pre run post : list Z),
       signal = pre ++ run ++ post →
       maximal_run cutoff false pre run post →
       let seg := take (length run) (drop (length pre) out) in
       let len := inject_Z (Z.of_nat (length run)) in
       ((len <= max_gap)%Q → seg = replicate (length run) (cutoff + 1)) ∧
       (¬ (len <= max_gap)%Q → seg = run)).
Proof.
  intros Hne _ Hfits.
  destruct (patch_signal_patched cutoff max_gap dt Hfits signal Hne)
    as (out & Hout & Hlen & Hall).
  exists out. split; [done |]. split; [done |]. split; [| split].
  - intros i x Hx.
    destruct (patched_lookup cutoff signal out i x Hall Hx)
      as (y & Hy & [-> | [_ ->]]); auto.
  - intros i x Hx Hhigh.
    destruct (patched_lookup cutoff signal out i x Hall Hx) as (y & Hy & Hp).
    rewrite Hy. f_equal. eapply patched_high; [exact Hp |].
    by apply high_true.
  - intros pre run post -> Hrun.
    destruct (patch_signal_run cutoff max_gap dt Hfits false pre run post
                Hrun) as (pre' & post' & Hpre' & Hpost' & Heq).
    rewrite Heq in Hout. injection Hout as <-.
    cbn zeta. rewrite segment_middle by (by rewrite ?length_flush).
    split; intros H; [by apply flush_low_le | by apply flush_low_gt].
Qed.

Lemma patch_signal_values_witness :
  [200; 0; 200] ≠ [] ∧ (1 <= 2)%Q ∧ fits int16 (100 + 1) = true ∧
  ∃ out, patch_signal int16 [200; 0; 200] 100 2 = Ok out ∧
    length out = length [200; 0; 200].
Proof.
  split; [discriminate |]. split; [discriminate |]. split; [reflexivity |].
  destruct (patch_signal_values int16 [200; 0; 200] 100 2)
    as (out & H1 & H2 & _).
  - discriminate.
  - discriminate.
  - reflexivity.
  - exists out. split; assumption.
Defined.

(** ** No gap *)

Lemma flush_no_gap (cutoff : Z) (max_gap : Q) (c : bool) (cur : list Z) :
  cur ≠ [] → ¬ (1 <= max_gap)%Q → flush cutoff max_gap c cur = cur.
Proof.
  intros Hne Hgap. unfold flush.
  destruct (Qle_bool _ max_gap) eqn:E.
  - apply Qle_bool_iff in E. exfalso. apply Hgap.
    eapply Qle_trans; [| exact E].
    change 1%Q with (inject_Z 1). rewrite <- Zle_Qle.
    destruct cur; [done |]. cbn [length]. lia.
  - rewrite andb_false_r. reflexivity.
Qed.

Lemma scan_no_gap (cutoff : Z) (max_gap : Q) (rest : list Z) :
  ¬ (1 <= max_gap)%Q →
  ∀ (c : bool) (cur : list Z), cur ≠ [] →
  scan cutoff max_gap c cur rest = cur ++ rest.
Proof.
  intros Hgap. induction rest as [| x rest IH]; intros c cur Hne; cbn [scan].
  - rewrite app_nil_r. by apply flush_no_gap.
  - destruct (xorb c (high cutoff x)).
    + rewrite flush_no_gap, IH by done. reflexivity.
    + rewrite IH by (by destruct cur). by rewrite <- app_assoc.
Qed.

(** On a denominator that is not 0 the division is the quotient. *)
Lemma np_truediv_finite (a b : Z) :
  b ≠ 0 → np_truediv a b = Finite (inject_Z a / inject_Z b).
Proof.
  intros Hb. unfold np_truediv.
  by destruct (Z.eqb_spec b 0) as [H | _].
Qed.

Lemma np_truediv_length (a : Z) (l : list Z) :
  l ≠ [] →
  np_truediv a (Z.of_nat (length l))
  = Finite (inject_Z a / inject_Z (Z.of_nat (length l))).
Proof.
  intros Hne. apply np_truediv_finite.
  destruct l; [done |]. cbn [length]. lia.
Qed.

(** C5.  For a signal that is not empty and any cutoff, with a gap of 0
    [get_bark_fraction] returns the number of samples strictly above the
    cutoff divided by the number of samples.  It does so without a call
    of [patch_signal]: the result is the same where [patch_signal] raises;
    and where [patch_signal] returns, it returns the signal as it is, so
    the classification is the raw threshold mask on both ways. *)
Theorem get_bark_fraction_no_gap (dt : dtype) (signal : list Z)
    (cutoff : Z) :
  signal ≠ [] →
  get_bark_fraction dt signal cutoff 0
  = Ok (Finite (inject_Z (count_high cutoff signal)
                / inject_Z (Z.of_nat (length signal)))) ∧
  (fits dt (cutoff + 1) = true →
   patch_signal dt signal cutoff 0 = Ok signal) ∧
  (fits dt (cutoff + 1) = false →
   patch_signal dt signal cutoff 0 = Raise OverflowError).
Proof.
  intros Hne. split; [| split].
  - unfold get_bark_fraction. cbn [Qle_bool Qnum Qden].
    replace (0 * 1 <=? 0 * 1) with true by reflexivity.
    by rewrite np_truediv_length, np_count_nonzero_gt.
  - intros Hfits. destruct signal as [| s0 rest]; [done |].
    assert (Hgap : ¬ (1 <= 0)%Q) by (intros H; by apply H).
    rewrite patch_signal_scan, scan_no_gap by done. reflexivity.
  - intros Hfits. destruct signal as [| s0 rest]; [done |].
    by apply patch_signal_overflow.
Qed.

Lemma get_bark_fraction_no_gap_witness :
  [0; 200; 200] ≠ [] ∧
  get_bark_fraction int16 [0; 200; 200] 100 0 = Ok (Finite (2 / 3)).
Proof.
  split; [discriminate |].
  apply (get_bark_fraction_no_gap int16 [0; 200; 200] 100). discriminate.
Defined.

(** ** The empty signal *)

(** On the empty signal and a gap of 0, [get_bark_fraction] goes on to
    its division, of the count 0 by the length 0, and returns its result,
    which is not a number. *)
Lemma get_bark_fraction_empty_counterexample :
  get_bark_fraction int16 [] 5000 0 = Ok NaN.
Proof. reflexivity. Qed.

(** C4, amended.  On the empty signal there is no check of its own and no
    error that names it: [patch_signal] fails at [signal[0]] with an
    [IndexError]; [get_bark_fraction] goes on to the division of 0 by 0
    and returns [nan] when [max_gap <= 0], and fails with the
    [IndexError] of [patch_signal] otherwise. *)
Theorem get_bark_fraction_empty (dt : dtype) (cutoff : Z) (max_gap : Q) :
  patch_signal dt [] cutoff max_gap = Raise IndexError ∧
  get_bark_fraction dt [] cutoff max_gap
  = if Qle_bool max_gap 0 then Ok NaN else Raise IndexError.
Proof.
  split; [reflexivity |].
  unfold get_bark_fraction. by destruct (Qle_bool max_gap 0).
Qed.

(** ** Stereo input *)

(** C8.  For a reader with two channels, [read_sound_file] raises the
    [ValueError] "Only mono files supported." and leaves the reader as it
    was, no frame read; [analyze_file] then raises that error and returns
    no result. *)
Theorem read_sound_file_stereo (w : wave_read) (samples : py_num) :
  wav_nchannels w = 2 →
  read_sound_file w samples
  = (Raise (ValueError "Only mono files supported."), w) ∧
  ∀ (open_sound : string → result wave_read)
    (extract_timestamp : string → result datetime)
    (input_file : string) (cutoff : Z) (max_gap : Q),
    open_sound input_file = Ok w →
    analyze_file open_sound extract_timestamp input_file cutoff max_gap
    = Raise (ValueError "Only mono files supported.").
Proof.
  intros Hch.
  assert (H : ∀ s, read_sound_file w s
                   = (Raise (ValueError "Only mono files supported."), w)).
  { intros s. unfold read_sound_file. by rewrite Hch. }
  split; [apply H |].
  intros open_sound extract_timestamp input_file cutoff max_gap Hw.
  unfold analyze_file. rewrite Hw. cbn [mbind result_bind].
  rewrite H. reflexivity.
Qed.

Lemma read_sound_file_stereo_witness :
  wav_nchannels wav_stereo = 2 ∧
  read_sound_file wav_stereo (PyInt (-1))
  = (Raise (ValueError "Only mono files supported."), wav_stereo).
Proof.
  split; [reflexivity |].
  apply (read_sound_file_stereo wav_stereo (PyInt (-1))). reflexivity.
Defined.

(** ** The total time *)

Lemma np_linspace_last (start stop : Q) (num : nat) :
  (2 ≤ num)%nat → py_index (np_linspace start stop num) (-1) = Ok stop.
Proof.
  intros Hnum. unfold np_linspace.
  destruct (Nat.ltb_spec 1 num) as [_ | H]; [| lia].
  set (y := map _ (seq 0 num)).
  assert (Hy : length y = num) by (unfold y; by rewrite length_map, length_seq).
  unfold py_index. rewrite length_insert, Hy.
  replace (-1 <? 0) with true by reflexivity.
  destruct ((0 <=? _) && (_ <? _)) eqn:E; [| lia].
  replace (Z.to_nat (Z.of_nat num + -1)) with (num - 1)%nat by lia.
  rewrite list_lookup_insert_eq by lia. reflexivity.
Qed.

Lemma np_linspace_one (start stop : Q) :
  np_linspace start stop 1
  = [(inject_Z (Z.of_nat 0) * (stop - start) + start)%Q].
Proof. reflexivity. Qed.

Lemma read_sound_file_time (w : wave_read) (samples : py_num)
    (time : list Q) (signal : list Z) :
  (read_sound_file w samples).1 = Ok (time, signal) →
  wav_framerate w ≠ 0 ∧
  time = np_linspace 0
           (inject_Z (Z.of_nat (length signal)) / inject_Z (wav_framerate w))
           (length signal).
Proof.
  unfold read_sound_file, readframes.
  destruct (wav_nchannels w =? 2); [discriminate |].
  cbn [fst wav_framerate].
  destruct (np_frombuffer_int16 _) as [raw | e]; [| discriminate].
  cbn [mbind result_bind]. unfold py_truediv.
  destruct (Z.eqb_spec (wav_framerate w) 0) as [H | H]; [discriminate |].
  cbn [mbind result_bind]. intros [= <- <-]. by split.
Qed.

(** Where the classifier returns and where it fails, on a signal that is
    not empty. *)
Lemma get_bark_fraction_ok (dt : dtype) (signal : list Z) (cutoff : Z)
    (max_gap : Q) :
  signal ≠ [] → (max_gap <= 0)%Q ∨ fits dt (cutoff + 1) = true →
  ∃ f, get_bark_fraction dt signal cutoff max_gap = Ok (Finite f).
Proof.
  intros Hne Hcase. unfold get_bark_fraction.
  destruct (Qle_bool max_gap 0) eqn:E.
  - rewrite np_truediv_length by done. eauto.
  - destruct Hcase as [Hle | Hfits].
    { apply Qle_bool_iff in Hle. congruence. }
    destruct (patch_signal_patched cutoff (seconds_to_samples max_gap)
                dt Hfits signal Hne) as (out & -> & Hlen & _).
    cbn [mbind result_bind].
    rewrite np_truediv_length by (destruct out, signal; done). eauto.
Qed.

Lemma get_bark_fraction_overflow (dt : dtype) (signal : list Z) (cutoff : Z)
    (max_gap : Q) :
  signal ≠ [] → ¬ (max_gap <= 0)%Q → fits dt (cutoff + 1) = false →
  get_bark_fraction dt signal cutoff max_gap = Raise OverflowError.
Proof.
  intros Hne Hgap Hfits. unfold get_bark_fraction.
  destruct (Qle_bool max_gap 0) eqn:E.
  { apply Qle_bool_iff in E. contradiction. }
  destruct signal as [| s0 rest]; [done |].
  by rewrite patch_signal_overflow.
Qed.

(** Four samples at 4 frames per second: the total time is 1 second, not
    [(4 - 1) * (1 / 4)]. *)
Lemma analyze_file_total_time_counterexample :
  ∃ res,
    analyze_file (λ _, Ok wav_4hz) (λ _, Ok ts0) "rec.wav" 5000 0 = Ok res ∧
    (total_time res == 1)%Q ∧
    ¬ (total_time res == inject_Z (4 - 1) * (1 / inject_Z 4))%Q.
Proof.
  eexists. split; [vm_compute; reflexivity |]. split.
  - reflexivity.
  - cbn [total_time]. intros H. discriminate H.
Qed.

(** C2, amended.  For a recording decoded to [N >= 1] samples at [r]
    frames per second, [analyze_file] returns a result whose [total_time],
    the last element of the time axis, is [N * (1 / r)] when [N >= 2] and
    0 when [N = 1].  It returns whenever the classifier does: when
    [max_gap <= 0], or when [cutoff + 1] is a 16-bit value; otherwise the
    classifier's write raises and there is no result. *)
Theorem analyze_file_total_time
    (open_sound : string → result wave_read)
    (extract_timestamp : string → result datetime)
    (input_file : string) (cutoff : Z) (max_gap : Q)
    (w : wave_read) (time : list Q) (signal : list Z) (ts : datetime) :
  open_sound input_file = Ok w →
  (read_sound_file w (PyInt (-1))).1 = Ok (time, signal) →
  (1 ≤ length signal)%nat →
  extract_timestamp input_file = Ok ts →
  ((max_gap <= 0)%Q ∨ fits int16 (cutoff + 1) = true →
   ∃ res,
     analyze_file open_sound extract_timestamp input_file cutoff max_gap
     = Ok res ∧
     ((2 ≤ length signal)%nat →
      (total_time res
       == inject_Z (Z.of_nat (length signal))
          * (1 / inject_Z (wav_framerate w)))%Q) ∧
     (length signal = 1%nat → (total_time res == 0)%Q)) ∧
  (¬ (max_gap <= 0)%Q → fits int16 (cutoff + 1) = false →
   analyze_file open_sound extract_timestamp input_file cutoff max_gap
   = Raise OverflowError).
Proof.
  intros Hw Hread Hlen Hts.
  destruct (read_sound_file_time _ _ _ _ Hread) as [Hr ->].
  assert (Hne : signal ≠ []) by (destruct signal; [cbn in Hlen; lia | done]).
  split.
  - intros Hcase.
    destruct (get_bark_fraction_ok int16 signal cutoff max_gap Hne Hcase)
      as (f & Hf).
    unfold analyze_file. rewrite Hw. cbn [mbind result_bind].
    rewrite Hread. cbn [mbind result_bind].
    destruct (decide (length signal = 1%nat)) as [H1 | H1].
    + rewrite H1, np_linspace_one.
      replace (py_index [_] (-1)) with
        (Ok (inject_Z (Z.of_nat 0)
             * (inject_Z (Z.of_nat 1) / inject_Z (wav_framerate w) - 0)
             + 0)%Q)
        by reflexivity.
      cbn [mbind result_bind]. rewrite Hf. cbn [mbind result_bind].
      rewrite Hts. cbn [mbind result_bind].
      eexists. split; [reflexivity |]. cbn [total_time]. split; [lia |].
      intros _. change (inject_Z (Z.of_nat 0)) with 0%Q. ring.
    + rewrite np_linspace_last by lia.
      cbn [mbind result_bind]. rewrite Hf. cbn [mbind result_bind].
      rewrite Hts. cbn [mbind result_bind].
      eexists. split; [reflexivity |]. cbn [total_time]. split; [| done].
      intros _. unfold Qdiv. by rewrite Qmult_1_l.
  - intros Hgap Hfits.
    pose proof (get_bark_fraction_overflow int16 signal cutoff max_gap
                  Hne Hgap Hfits) as Hf.
    unfold analyze_file. rewrite Hw. cbn [mbind result_bind].
    rewrite Hread. cbn [mbind result_bind].
    destruct (decide (length signal = 1%nat)) as [H1 | H1].
    + rewrite H1, np_linspace_one.
      replace (py_index [_] (-1)) with
        (Ok (inject_Z (Z.of_nat 0)
             * (inject_Z (Z.of_nat 1) / inject_Z (wav_framerate w) - 0)
             + 0)%Q)
        by reflexivity.
      cbn [mbind result_bind]. by rewrite Hf.
    + rewrite np_linspace_last by lia.
      cbn [mbind result_bind]. by rewrite Hf.
Qed.

Lemma analyze_file_total_time_witness :
  ∃ res,
    analyze_file (λ _, Ok wav_4hz) (λ _, Ok ts0) "rec.wav" 5000 0 = Ok res ∧
    (total_time res == inject_Z 4 * (1 / inject_Z 4))%Q.
Proof.
  destruct (analyze_file_total_time (λ _, Ok wav_4hz) (λ _, Ok ts0)
              "rec.wav" 5000 0 wav_4hz
              (np_linspace 0 (inject_Z 4 / inject_Z 4) 4)
              [10000; 10000; 10000; 10000] ts0)
    as [Hres _].
  - reflexivity.
  - reflexivity.
  - cbn [length]. lia.
  - reflexivity.
  - destruct Hres as (res & Hres & H2 & _).
    + left. discriminate.
    + exists res. split; [exact Hres |]. apply H2. cbn [length]. lia.
Defined.

(** ** The gap in samples *)

(** The conversion is by the constant 0.000125, whatever recording the
    signal comes from. *)
Lemma seconds_to_samples_8000 (max_gap : Q) :
  (seconds_to_samples max_gap == max_gap * 8000)%Q.
Proof. unfold seconds_to_samples. field. Qed.

Lemma get_bark_fraction_gap (dt : dtype) (signal : list Z) (cutoff : Z)
    (max_gap : Q) :
  (0 < max_gap)%Q →
  get_bark_fraction dt signal cutoff max_gap
  = (out ← patch_signal dt signal cutoff (seconds_to_samples max_gap);
     Ok (np_truediv (np_count_nonzero (np_gt out cutoff))
                    (Z.of_nat (length out)))).
Proof.
  intros Hgap. unfold get_bark_fraction.
  destruct (Qle_bool max_gap 0) eqn:E; [| reflexivity].
  apply Qle_bool_iff in E. exfalso. by apply (Qlt_not_le _ _ Hgap).
Qed.

(** C3, on a recording at 44100 frames per second with a gap of one
    millisecond: the gap [get_bark_fraction] passes to [patch_signal] is 8
    samples, not 44.1, and the quiet run of ten samples of the recording
    stays low, where a gap of 44.1 samples patches it. *)
Theorem get_bark_fraction_gap_44100 :
  ∃ time signal,
    (read_sound_file wav_44100hz (PyInt (-1))).1 = Ok (time, signal) ∧
    wav_framerate wav_44100hz = 44100 ∧
    get_bark_fraction int16 signal 5000 (1 # 1000)
    = (out ← patch_signal int16 signal 5000 (seconds_to_samples (1 # 1000));
       Ok (np_truediv (np_count_nonzero (np_gt out 5000))
                      (Z.of_nat (length out)))) ∧
    (seconds_to_samples (1 # 1000) == 8)%Q ∧
    ¬ (seconds_to_samples (1 # 1000) == (1 # 1000) * inject_Z 44100)%Q ∧
    patch_signal int16 signal 5000 (seconds_to_samples (1 # 1000))
    = Ok signal ∧
    patch_signal int16 signal 5000 ((1 # 1000) * inject_Z 44100)
    = Ok ([10000] ++ replicate 10 5001 ++ [10000]) ∧
    get_bark_fraction int16 signal 5000 (1 # 1000) = Ok (Finite (2 # 12)).
Proof.
  eexists _, _. split; [vm_compute; reflexivity |].
  split; [reflexivity |]. split; [reflexivity |].
  split; [reflexivity |]. split; [intros H; discriminate H |].
  split; [vm_compute; reflexivity |].
  split; vm_compute; reflexivity.
Qed.

(** ** [write_csv] *)

(** C10.  For a reference [rows] to the list [rs]: when the file exists and
    [overwrite] is false, [write_csv] appends [rs] to the file, without a
    header, and changes no list; otherwise it puts the header
    ["timestamp", "total_time", "bark_time"] at the front of the caller's
    list, which then is the header followed by [rs], and the file holds
    the header and the rows, whatever it held before. *)
Theorem write_csv_rows (rows : loc) (file : string) (overwrite : bool)
    (σ : world) (rs : list row) :
  heap σ !! rows = Some rs →
  ∃ σ', write_csv rows file overwrite σ = Some σ' ∧
    (∀ old, files σ !! file = Some old → overwrite = false →
       heap σ' = heap σ ∧ heap σ' !! rows = Some rs ∧
       files σ' = <[file := old ++ rs]> (files σ) ∧
       files σ' !! file = Some (old ++ rs)) ∧
    (files σ !! file = None ∨ overwrite = true →
       let hd := [CStr "timestamp"; CStr "total_time"; CStr "bark_time"] in
       heap σ' = <[rows := hd :: rs]> (heap σ) ∧
       heap σ' !! rows = Some (hd :: rs) ∧
       files σ' = <[file := hd :: rs]> (files σ) ∧
       files σ' !! file = Some (hd :: rs)).
Proof.
  intros Hrows. unfold write_csv, header. rewrite Hrows. cbn [mbind option_bind].
  destruct (files σ !! file) as [old |] eqn:Hfile; destruct overwrite;
    cbn [negb andb default];
    first [ rewrite bool_decide_eq_true_2 by eauto
          | rewrite bool_decide_eq_false_2 by (intros [? ?]; done) ];
    cbn [andb id]; eexists; (split; [reflexivity |]); cbn [heap files].
  - split; [intros ? _ [=] |]. intros _. by rewrite !lookup_insert_eq.
  - split.
    + intros ? [= <-] _. by rewrite lookup_insert_eq.
    + intros [[=] | [=]].
  - split; [intros ? [=] |]. intros _. by rewrite !lookup_insert_eq.
  - split; [intros ? [=] |]. intros _. by rewrite !lookup_insert_eq.
Qed.

Lemma write_csv_rows_witness :
  ∃ σ', write_csv 1%positive "summary.csv" false
          {| heap := {[1%positive := [[CFloat 1]]]};
             files := {["summary.csv" := [header]]} |} = Some σ'.
Proof.
  destruct (write_csv_rows 1%positive "summary.csv" false
              {| heap := {[1%positive := [[CFloat 1]]]};
                 files := {["summary.csv" := [header]]} |}
              [[CFloat 1]]) as (σ' & H & _).
  - reflexivity.
  - exists σ'. exact H.
Defined.

(** ** The cases of [test_signal_patching] *)

Example test_signal_patching_1 :
  patch_signal int64 [0; 200; 200] 100 2 = Ok [101; 200; 200].
Proof. reflexivity. Qed.

Example test_signal_patching_2 :
  patch_signal int64 [200; 200; 0] 100 2 = Ok [200; 200; 101].
Proof. reflexivity. Qed.

Example test_signal_patching_3 :
  patch_signal int64 [200; 0; 0; 0] 100 2 = Ok [200; 0; 0; 0].
Proof. reflexivity. Qed.

Example test_signal_patching_4 :
  patch_signal int64 [0; 0; 0; 0] 100 2 = Ok [0; 0; 0; 0].
Proof. reflexivity. Qed.

Example test_signal_patching_5 :
  patch_signal int64 [200; 200; 200; 200] 100 2 = Ok [200; 200; 200; 200].
Proof. reflexivity. Qed.

Example test_signal_patching_6 :
  patch_signal int64 [0; 0; 200; 0] 100 2 = Ok [101; 101; 200; 101].
Proof. reflexivity. Qed.

Example test_signal_patching_7 :
  patch_signal int64 [0; 200; 200; 0; 0; 0; 200; 0; 200; 0; 0; 200; 200; 0] 100 2
  = Ok [101; 200; 200; 0; 0; 0; 200; 101; 200; 101; 101; 200; 200; 101].
Proof. reflexivity. Qed.

Example test_signal_patching_8 :
  patch_signal int64 [0; 0; 0; 0; 0; 0; 200; 0; 200; 0; 0; 200; 200; 0] 100 2
  = Ok [0; 0; 0; 0; 0; 0; 200; 101; 200; 101; 101; 200; 200; 101].
Proof. reflexivity. Qed.

Example test_signal_patching_9 :
  patch_signal int64 [0; 200; 200; 0; 0; 0; 200; 0; 200; 0; 0; 200; 0; 0; 0] 100 2
  = Ok [101; 200; 200; 0; 0; 0; 200; 101; 200; 101; 101; 200; 0; 0; 0].
Proof. reflexivity. Qed.

(** * Further properties *)

(** ** The run lengths and the mask *)

Lemma expand_runs_from (m : list bool) : ∀ (c : bool) (cnt : Z),
  0 ≤ cnt → expand c (runs_from c cnt m) = replicate (Z.to_nat cnt) c ++ m.
Proof.
  induction m as [| b m IH]; intros c cnt Hcnt; cbn [runs_from].
  - cbn [expand]. reflexivity.
  - destruct (xorb c b) eqn:E.
    + cbn [expand].
      replace (negb c) with b by (by destruct c, b).
      rewrite IH by lia. reflexivity.
    + rewrite IH by lia.
      replace (Z.to_nat (cnt + 1)) with (Z.to_nat cnt + 1)%nat by lia.
      rewrite replicate_add, <- app_assoc.
      replace b with c by (by destruct c, b). reflexivity.
Qed.

Lemma runs_from_positive (m : list bool) : ∀ (c : bool) (cnt : Z),
  1 ≤ cnt → Forall (λ r, 1 ≤ r) (runs_from c cnt m).
Proof.
  induction m as [| b m IH]; intros c cnt Hcnt; cbn [runs_from].
  - by constructor.
  - destruct (xorb c b).
    + constructor; [done |]. by apply IH.
    + apply IH. lia.
Qed.

(** The run lengths [patch_signal] computes from a mask that starts with
    [True] are all at least 1, and they give the mask back when they are
    expanded with alternating classes. *)
Theorem run_lengths_expand (m : list bool) :
  ∃ runs, run_lengths (true :: m) = Ok runs ∧
    Forall (λ r, 1 ≤ r) runs ∧
    expand true runs = true :: m.
Proof.
  exists (runs_from true 1 m). split; [apply run_lengths_cons |]. split.
  - by apply runs_from_positive.
  - by rewrite expand_runs_from.
Qed.

(** ** Patching twice *)

Section ScanTwice.
Variables (cutoff : Z) (max_gap : Q).
Local Abbreviation fl := (flush cutoff max_gap).
Local Abbreviation sc := (scan cutoff max_gap).
Local Abbreviation hi := (high cutoff).
Local Abbreviation long acc :=
  (Qle_bool (inject_Z (Z.of_nat (length acc))) max_gap = false).

Lemma scan_nil_start (c : bool) (y : Z) (rest : list Z) :
  sc c [] (y :: rest) = sc (hi y) [y] rest.
Proof.
  cbn [scan]. destruct (xorb c (hi y)) eqn:E.
  - unfold flush. by destruct (negb c && _).
  - replace (hi y) with c by (by destruct c, (hi y)). reflexivity.
Qed.

Lemma scan_same (c : bool) (block rest : list Z) : ∀ acc : list Z,
  Forall (λ x, hi x = c) block →
  sc c acc (block ++ rest) = sc c (acc ++ block) rest.
Proof.
  induction block as [| x block IH]; intros acc Hblock.
  - by rewrite app_nil_r.
  - apply Forall_cons in Hblock as [Hx Hblock].
    cbn [app scan]. rewrite Hx.
    replace (xorb c c) with false by (by destruct c).
    rewrite IH by done. by rewrite <- app_assoc.
Qed.

Lemma flush_long (c : bool) (acc : list Z) :
  (c = false → long acc) → fl c acc = acc.
Proof.
  intros H. unfold flush. destruct c; [done |]. by rewrite H.
Qed.

(** Reading a block of one class after the run [acc] of class [c2]. *)
Lemma scan_block (c2 cb : bool) (acc block rest : list Z) :
  block ≠ [] → Forall (λ x, hi x = cb) block →
  sc c2 acc (block ++ rest)
  = if xorb c2 cb then fl c2 acc ++ sc cb block rest
    else sc c2 (acc ++ block) rest.
Proof.
  intros Hne Hblock. destruct (xorb c2 cb) eqn:E.
  - destruct block as [| x block]; [done |].
    apply Forall_cons in Hblock as [Hx Hblock].
    cbn [app scan]. rewrite Hx, E. f_equal.
    by apply (scan_same cb block rest [x]).
  - replace cb with c2 in Hblock by (by destruct c2, cb).
    by apply scan_same.
Qed.

(** The block [flush] leaves: its class, and when it is still low. *)
Lemma flush_block (c : bool) (cur : list Z) :
  cur ≠ [] → Forall (λ x, hi x = c) cur →
  ∃ cb, fl c cur ≠ [] ∧ Forall (λ x, hi x = cb) (fl c cur) ∧
    (c = true → cb = true) ∧
    (cb = false → c = false ∧ long (fl c cur)).
Proof.
  intros Hne Hcur. unfold flush.
  destruct (negb c && Qle_bool _ max_gap) eqn:E.
  - exists true. split; [| split; [| done]].
    + destruct cur; [done |]. discriminate.
    + apply Forall_replicate. apply high_succ.
  - exists c. split; [done |]. split; [done |]. split; [done |].
    intros ->. split; [done |]. exact E.
Qed.

Lemma scan_scan (rest : list Z) : ∀ (c : bool) (cur : list Z) (c2 : bool)
    (acc : list Z),
  cur ≠ [] → Forall (λ x, hi x = c) cur →
  (c2 = false → c = true ∧ long acc) →
  sc c2 acc (sc c cur rest) = acc ++ sc c cur rest.
Proof.
  induction rest as [| x rest IH]; intros c cur c2 acc Hne Hcur Hadm.
  - cbn [scan].
    destruct (flush_block c cur Hne Hcur) as (cb & Hbne & Hb & Hc & Hcb).
    rewrite <- (app_nil_r (fl c cur)) at 1.
    rewrite (scan_block c2 cb) by done. cbn [scan].
    destruct (xorb c2 cb) eqn:E.
    + rewrite flush_long by (intros ->; by apply Hadm).
      rewrite flush_long by (intros ->; by apply Hcb). reflexivity.
    + apply flush_long. intros ->. destruct (Hadm eq_refl) as [-> _].
      rewrite (Hc eq_refl) in E. discriminate.
  - cbn [scan]. destruct (xorb c (hi x)) eqn:Ex.
    + destruct (flush_block c cur Hne Hcur) as (cb & Hbne & Hb & Hc & Hcb).
      rewrite (scan_block c2 cb) by done.
      destruct (xorb c2 cb) eqn:E.
      * rewrite flush_long by (intros ->; by apply Hadm).
        rewrite (IH (hi x) [x] cb (fl c cur)); [done | done | |].
        -- by constructor.
        -- intros ->. destruct (Hcb eq_refl) as [-> Hlong].
           split; [| done]. by destruct (hi x).
      * rewrite (IH (hi x) [x] c2 (acc ++ fl c cur)).
        -- by rewrite <- app_assoc.
        -- done.
        -- by constructor.
        -- intros ->. destruct (Hadm eq_refl) as [-> _].
           rewrite (Hc eq_refl) in E. discriminate.
    + apply IH; [by destruct cur | | done].
      apply Forall_app. split; [done |].
      constructor; [| done]. by destruct c, (hi x).
Qed.
End ScanTwice.

(** Patching is idempotent: patching the array [patch_signal] returns
    gives that array again. *)
Theorem patch_signal_idempotent (dt : dtype) (signal : list Z) (cutoff : Z)
    (max_gap : Q) :
  signal ≠ [] → fits dt (cutoff + 1) = true →
  ∃ out, patch_signal dt signal cutoff max_gap = Ok out ∧
    patch_signal dt out cutoff max_gap = Ok out.
Proof.
  destruct signal as [| s0 rest]; [done |]. intros _ Hfits.
  eexists. split; [by apply patch_signal_scan |].
  set (out := scan cutoff max_gap (high cutoff s0) [s0] rest).
  assert (Hlen : length out = S (length rest))
    by (unfold out; by rewrite length_scan).
  assert (Hout : scan cutoff max_gap true [] out = out).
  { unfold out. rewrite scan_scan; [done | done | by constructor | done]. }
  destruct out as [| o0 out']; [done |].
  rewrite patch_signal_scan, <- (scan_nil_start cutoff max_gap true) by done.
  by rewrite Hout.
Qed.

Lemma patch_signal_idempotent_witness :
  [0; 200; 0; 0; 0; 200; 0] ≠ [] ∧ fits int16 (100 + 1) = true ∧
  ∃ out, patch_signal int16 [0; 200; 0; 0; 0; 200; 0] 100 2 = Ok out ∧
    patch_signal int16 out 100 2 = Ok out.
Proof.
  split; [discriminate |]. split; [reflexivity |].
  apply (patch_signal_idempotent int16 [0; 200; 0; 0; 0; 200; 0] 100 2).
  - discriminate.
  - reflexivity.
Defined.

(** ** A larger gap patches more *)

Lemma flush_mono (cutoff : Z) (g1 g2 : Q) (c : bool) (cur : list Z) :
  (g1 <= g2)%Q →
  Forall2 (λ y1 y2, cutoff < y1 → cutoff < y2)
    (flush cutoff g1 c cur) (flush cutoff g2 c cur).
Proof.
  intros Hg. unfold flush. destruct c; cbn [negb andb].
  - apply Forall_Forall2_diag, Forall_forall. auto.
  - destruct (Qle_bool _ g1) eqn:E1.
    + apply Qle_bool_iff in E1.
      assert (E2 : Qle_bool (inject_Z (Z.of_nat (length cur))) g2 = true)
        by (apply Qle_bool_iff; by eapply Qle_trans).
      rewrite E2. apply Forall2_replicate. auto.
    + destruct (Qle_bool _ g2).
      * apply Forall2_replicate_r; [done |].
        apply Forall_forall. intros y _ _. lia.
      * apply Forall_Forall2_diag, Forall_forall. auto.
Qed.

Lemma scan_mono (cutoff : Z) (g1 g2 : Q) (rest : list Z) :
  (g1 <= g2)%Q → ∀ (c : bool) (cur : list Z),
  Forall2 (λ y1 y2, cutoff < y1 → cutoff < y2)
    (scan cutoff g1 c cur rest) (scan cutoff g2 c cur rest).
Proof.
  intros Hg. induction rest as [| x rest IH]; intros c cur; cbn [scan].
  - by apply flush_mono.
  - destruct (xorb c (high cutoff x)); [| apply IH].
    apply Forall2_app; [by apply flush_mono | apply IH].
Qed.

Lemma count_high_mono (cutoff : Z) (l1 l2 : list Z) :
  Forall2 (λ y1 y2, cutoff < y1 → cutoff < y2) l1 l2 →
  count_high cutoff l1 ≤ count_high cutoff l2.
Proof.
  unfold count_high.
  induction 1 as [| x y l1 l2 Hxy _ IH]; [done |].
  rewrite !filter_cons.
  destruct (decide (cutoff < x)) as [Hx | Hx],
           (decide (cutoff < y)) as [Hy | Hy]; cbn [length]; try lia.
Qed.

(** With a larger gap, every sample that is high after the patch is still
    high, so the number of high samples does not go down. *)
Theorem patch_signal_gap_mono (dt : dtype) (signal : list Z) (cutoff : Z)
    (g1 g2 : Q) :
  signal ≠ [] → (g1 <= g2)%Q → fits dt (cutoff + 1) = true →
  ∃ out1 out2,
    patch_signal dt signal cutoff g1 = Ok out1 ∧
    patch_signal dt signal cutoff g2 = Ok out2 ∧
    Forall2 (λ y1 y2, cutoff < y1 → cutoff < y2) out1 out2 ∧
    count_high cutoff out1 ≤ count_high cutoff out2.
Proof.
  destruct signal as [| s0 rest]; [done |]. intros _ Hg Hfits.
  eexists _, _. split; [by apply patch_signal_scan |].
  split; [by apply patch_signal_scan |].
  pose proof (scan_mono cutoff g1 g2 rest Hg (high cutoff s0) [s0]) as H.
  split; [exact H |]. by apply count_high_mono.
Qed.

Lemma patch_signal_gap_mono_witness :
  [200; 0; 0; 200] ≠ [] ∧ (1 <= 2)%Q ∧ fits int16 (100 + 1) = true ∧
  ∃ out1 out2,
    patch_signal int16 [200; 0; 0; 200] 100 1 = Ok out1 ∧
    patch_signal int16 [200; 0; 0; 200] 100 2 = Ok out2 ∧
    count_high 100 out1 ≤ count_high 100 out2.
Proof.
  split; [discriminate |]. split; [discriminate |]. split; [reflexivity |].
  destruct (patch_signal_gap_mono int16 [200; 0; 0; 200] 100 1 2)
    as (out1 & out2 & H1 & H2 & _ & H3).
  - discriminate.
  - discriminate.
  - reflexivity.
  - exists out1, out2. repeat split; assumption.
Defined.

(** ** A gap below one sample *)

(** With a gap below one sample, negative gaps included, [patch_signal]
    returns the signal as it is. *)
Theorem patch_signal_small_gap (dt : dtype) (signal : list Z) (cutoff : Z)
    (max_gap : Q) :
  signal ≠ [] → (max_gap < 1)%Q → fits dt (cutoff + 1) = true →
  patch_signal dt signal cutoff max_gap = Ok signal.
Proof.
  destruct signal as [| s0 rest]; [done |]. intros _ Hgap Hfits.
  rewrite patch_signal_scan, scan_no_gap; [done | | done | done].
  by apply Qlt_not_le.
Qed.

Lemma patch_signal_small_gap_witness :
  [0; 200; 0] ≠ [] ∧ (1 # 2 < 1)%Q ∧ fits int16 (100 + 1) = true ∧
  patch_signal int16 [0; 200; 0] 100 (1 # 2) = Ok [0; 200; 0].
Proof.
  split; [discriminate |]. split; [reflexivity |]. split; [reflexivity |].
  apply (patch_signal_small_gap int16 [0; 200; 0] 100 (1 # 2)).
  - discriminate.
  - reflexivity.
  - reflexivity.
Defined.

(** ** The bark fraction *)

Lemma count_high_bounds (cutoff : Z) (signal : list Z) :
  0 ≤ count_high cutoff signal ≤ Z.of_nat (length signal).
Proof.
  unfold count_high.
  pose proof (length_filter (λ x, cutoff < x) signal) as H. lia.
Qed.

Lemma count_high_all (cutoff : Z) (signal : list Z) :
  Forall (λ x, cutoff < x) signal →
  count_high cutoff signal = Z.of_nat (length signal).
Proof.
  unfold count_high.
  induction 1 as [| x signal Hx _ IH]; [done |].
  rewrite filter_cons.
  destruct (decide (cutoff < x)) as [_ | H]; [| lia].
  cbn [length]. lia.
Qed.

(** The value of [get_bark_fraction] on a signal that is not empty, where
    the classifier returns: the high samples of the array it counts, over
    the length of the signal. *)
Lemma get_bark_fraction_value (dt : dtype) (signal : list Z) (cutoff : Z)
    (max_gap : Q) :
  signal ≠ [] → (max_gap <= 0)%Q ∨ fits dt (cutoff + 1) = true →
  ∃ out, Forall2 (patched cutoff) signal out ∧
    get_bark_fraction dt signal cutoff max_gap
    = Ok (Finite (inject_Z (count_high cutoff out)
                  / inject_Z (Z.of_nat (length signal)))).
Proof.
  intros Hne Hcase.
  unfold get_bark_fraction. destruct (Qle_bool max_gap 0) eqn:E.
  - exists signal. split.
    + apply Forall_Forall2_diag, Forall_forall. intros x _. by left.
    + by rewrite np_truediv_length, np_count_nonzero_gt.
  - destruct Hcase as [Hle | Hfits].
    { apply Qle_bool_iff in Hle. congruence. }
    destruct (patch_signal_patched cutoff (seconds_to_samples max_gap)
                dt Hfits signal Hne) as (out & -> & Hout & Hall).
    exists out. split; [done |]. cbn [mbind result_bind].
    rewrite np_truediv_length by (destruct out, signal; done).
    by rewrite np_count_nonzero_gt, Hout.
Qed.

Lemma Qdiv_le_mono (a b n : Z) :
  0 < n → a ≤ b → (inject_Z a / inject_Z n <= inject_Z b / inject_Z n)%Q.
Proof.
  intros Hn Hab. apply Qmult_le_compat_r.
  - by rewrite <- Zle_Qle.
  - apply Qinv_le_0_compat. change 0%Q with (inject_Z 0).
    rewrite <- Zle_Qle. lia.
Qed.

Lemma fraction_bounds (a n : Z) :
  0 < n → 0 ≤ a ≤ n → (0 <= inject_Z a / inject_Z n <= 1)%Q.
Proof.
  intros Hn [H0 H1].
  assert (E0 : (inject_Z 0 / inject_Z n == 0)%Q).
  { unfold Qdiv. by rewrite Qmult_0_l. }
  assert (E1 : (inject_Z n / inject_Z n == 1)%Q).
  { apply Qmult_inv_r. change 0%Q with (inject_Z 0).
    rewrite inject_Z_injective. lia. }
  split.
  - rewrite <- E0. by apply Qdiv_le_mono.
  - rewrite <- E1. by apply Qdiv_le_mono.
Qed.

(** On a signal that is not empty, when there is no gap to patch or
    [cutoff + 1] is a value of the integer type of the array,
    [get_bark_fraction] returns, without an error, a fraction between 0
    and 1. *)
Theorem get_bark_fraction_bounds (dt : dtype) (signal : list Z)
    (cutoff : Z) (max_gap : Q) :
  signal ≠ [] → (max_gap <= 0)%Q ∨ fits dt (cutoff + 1) = true →
  ∃ f, get_bark_fraction dt signal cutoff max_gap = Ok (Finite f) ∧
    (0 <= f <= 1)%Q.
Proof.
  intros Hne Hcase.
  destruct (get_bark_fraction_value dt signal cutoff max_gap Hne Hcase)
    as (out & Hall & ->).
  eexists. split; [reflexivity |].
  assert (Hlen : 0 < Z.of_nat (length signal))
    by (destruct signal; [done | cbn [length]; lia]).
  pose proof (count_high_bounds cutoff out) as [H0 H1].
  rewrite <- (Forall2_length _ _ _ Hall) in H1.
  by apply fraction_bounds.
Qed.

Lemma get_bark_fraction_bounds_witness :
  [0; 200; 0] ≠ [] ∧
  ∃ f, get_bark_fraction int16 [0; 200; 0] 100 5 = Ok (Finite f) ∧
    (0 <= f <= 1)%Q.
Proof.
  split; [discriminate |].
  apply (get_bark_fraction_bounds int16 [0; 200; 0] 100 5).
  - discriminate.
  - right. reflexivity.
Defined.

(** The fraction with a gap is at least the fraction without one. *)
Theorem get_bark_fraction_raw_le (dt : dtype) (signal : list Z)
    (cutoff : Z) (max_gap : Q) :
  signal ≠ [] → (max_gap <= 0)%Q ∨ fits dt (cutoff + 1) = true →
  ∃ f0 f, get_bark_fraction dt signal cutoff 0 = Ok (Finite f0) ∧
    get_bark_fraction dt signal cutoff max_gap = Ok (Finite f) ∧
    (f0 <= f)%Q.
Proof.
  intros Hne Hcase.
  destruct (get_bark_fraction_value dt signal cutoff max_gap Hne Hcase)
    as (out & Hall & ->).
  assert (Hlen : 0 < Z.of_nat (length signal))
    by (destruct signal; [done | cbn [length]; lia]).
  eexists _, _. split; [| split; [reflexivity |]].
  - unfold get_bark_fraction. cbn [Qle_bool Qnum Qden].
    replace (0 * 1 <=? 0 * 1) with true by reflexivity.
    by rewrite np_truediv_length, np_count_nonzero_gt.
  - apply Qdiv_le_mono; [done |]. by apply count_high_patched.
Qed.

Lemma get_bark_fraction_raw_le_witness :
  [200; 0; 200] ≠ [] ∧
  ∃ f0 f, get_bark_fraction int16 [200; 0; 200] 100 0 = Ok (Finite f0) ∧
    get_bark_fraction int16 [200; 0; 200] 100 1 = Ok (Finite f) ∧
    (f0 <= f)%Q.
Proof.
  split; [discriminate |].
  apply (get_bark_fraction_raw_le int16 [200; 0; 200] 100 1).
  - discriminate.
  - right. reflexivity.
Defined.

(** On a signal whose samples are all above the cutoff, when
    [cutoff + 1] is a value of the integer type of the array,
    [patch_signal] changes nothing and the fraction is 1, whatever the
    gap. *)
Theorem get_bark_fraction_all_high (dt : dtype) (signal : list Z)
    (cutoff : Z) (max_gap : Q) :
  signal ≠ [] → Forall (λ x, cutoff < x) signal →
  fits dt (cutoff + 1) = true →
  patch_signal dt signal cutoff max_gap = Ok signal ∧
  ∃ f, get_bark_fraction dt signal cutoff max_gap = Ok (Finite f) ∧
    (f == 1)%Q.
Proof.
  intros Hne Hhigh Hfits.
  assert (Hpatch : ∀ g, patch_signal dt signal cutoff g = Ok signal).
  { intros g.
    assert (Hrun : maximal_run cutoff true [] signal []).
    { split; [done |]. split; [| by split].
      eapply Forall_impl; [exact Hhigh |]. intros x. apply high_true. }
    destruct (patch_signal_run cutoff g dt Hfits true [] signal [] Hrun)
      as (pre' & post' & Hpre' & Hpost' & Heq).
    destruct pre'; [| done]. destruct post'; [| done].
    cbn [app] in Heq. rewrite !app_nil_r in Heq. by rewrite Heq. }
  split; [apply Hpatch |].
  assert (Hlen : Z.of_nat (length signal) ≠ 0)
    by (destruct signal; [done | cbn [length]; lia]).
  exists (inject_Z (Z.of_nat (length signal))
          / inject_Z (Z.of_nat (length signal)))%Q.
  split.
  - unfold get_bark_fraction. rewrite Hpatch. cbn [mbind result_bind].
    rewrite np_truediv_length, np_count_nonzero_gt by done.
    rewrite count_high_all by done. by destruct (Qle_bool max_gap 0).
  - apply Qmult_inv_r. change 0%Q with (inject_Z 0).
    by rewrite inject_Z_injective.
Qed.

Lemma get_bark_fraction_all_high_witness :
  [200; 300] ≠ [] ∧ Forall (λ x, 100 < x) [200; 300] ∧
  fits int16 (100 + 1) = true ∧
  patch_signal int16 [200; 300] 100 2 = Ok [200; 300].
Proof.
  assert (H : Forall (λ x, 100 < x) [200; 300]) by (repeat constructor; lia).
  split; [discriminate |]. split; [exact H |]. split; [reflexivity |].
  apply (get_bark_fraction_all_high int16 [200; 300] 100 2).
  - discriminate.
  - exact H.
  - reflexivity.
Defined.

(** ** The decoded signal *)

Lemma to_int16_range (u : Z) : -32768 ≤ to_int16 u ≤ 32767.
Proof.
  unfold to_int16. pose proof (Z.mod_pos_bound u 65536 eq_refl).
  destruct (u mod 65536 <? 32768) eqn:E; lia.
Qed.

Lemma decode_int16_range (data : list Byte.byte) :
  Forall (λ x, -32768 ≤ x ≤ 32767) (decode_int16 data).
Proof.
  cut (Forall (λ x, -32768 ≤ x ≤ 32767) (decode_int16 data) ∧
       ∀ b, Forall (λ x, -32768 ≤ x ≤ 32767) (decode_int16 (b :: data))).
  { intros [H _]. exact H. }
  induction data as [| hi data [IH1 IH2]].
  - split; [constructor |]. intros b. constructor.
  - split; [apply IH2 |]. intros lo. cbn [decode_int16].
    constructor; [apply to_int16_range | exact IH1].
Qed.

Lemma np_abs_int16_range (x : Z) :
  -32768 ≤ x ≤ 32767 →
  0 ≤ to_int16 (Z.abs x) ≤ 32767 ∨ to_int16 (Z.abs x) = -32768.
Proof.
  intros Hx. unfold to_int16.
  destruct (Z.eq_dec x (-32768)) as [-> | Hne].
  - right. reflexivity.
  - left. rewrite Z.mod_small by lia.
    destruct (Z.abs x <? 32768) eqn:E; lia.
Qed.

Lemma length_np_linspace (start stop : Q) (num : nat) :
  length (np_linspace start stop num) = num.
Proof.
  unfold np_linspace. destruct (1 <? num)%nat.
  - by rewrite length_insert, length_map, length_seq.
  - by rewrite length_map, length_seq.
Qed.

(** Every sample [read_sound_file] returns is between 0 and 32767, or is
    -32768: the absolute value of the most negative [int16] sample stays
    negative.  The time axis is as long as the signal. *)
Theorem read_sound_file_range (w : wave_read) (samples : py_num)
    (time : list Q) (signal : list Z) :
  (read_sound_file w samples).1 = Ok (time, signal) →
  Forall (λ x, 0 ≤ x ≤ 32767 ∨ x = -32768) signal ∧
  length time = length signal.
Proof.
  intros Hread.
  destruct (read_sound_file_time _ _ _ _ Hread) as [_ Htime].
  split; [| rewrite Htime; apply length_np_linspace].
  revert Hread. unfold read_sound_file, readframes.
  destruct (wav_nchannels w =? 2); [discriminate |].
  cbn [fst wav_framerate]. unfold np_frombuffer_int16.
  destruct (_ =? 0); [| discriminate].
  cbn [mbind result_bind]. unfold py_truediv.
  destruct (wav_framerate w =? 0); [discriminate |].
  cbn [mbind result_bind]. intros [= _ <-].
  unfold np_abs_int16. apply Forall_map.
  eapply Forall_impl; [apply decode_int16_range |].
  intros x. apply np_abs_int16_range.
Qed.

Lemma read_sound_file_range_witness :
  (read_sound_file wav_min (PyInt (-1))).1
  = Ok (np_linspace 0 (inject_Z 2 / inject_Z 8000) 2, [-32768; 1]) ∧
  Forall (λ x, 0 ≤ x ≤ 32767 ∨ x = -32768) [-32768; 1].
Proof.
  split; [reflexivity |].
  apply (read_sound_file_range wav_min (PyInt (-1))
           (np_linspace 0 (inject_Z 2 / inject_Z 8000) 2) [-32768; 1]).
  reflexivity.
Defined.

(** A float that is a whole number is a number of frames, not a share of
    the recording: [read_sound_file(file, float(n))] is
    [read_sound_file(file, n)]. *)
Theorem read_sound_file_integral_float (w : wave_read) (n : Z) :
  read_sound_file w (PyFloat (inject_Z n)) = read_sound_file w (PyInt n).
Proof.
  unfold read_sound_file.
  assert (Hint : is_integer (inject_Z n) = true).
  { unfold is_integer. rewrite Qfloor_Z. apply Qeq_bool_iff. reflexivity. }
  assert (Hn : py_int (inject_Z n) = n).
  { unfold py_int. destruct (Qle_bool 0 (inject_Z n)).
    - apply Qfloor_Z.
    - apply Qceiling_Z. }
  by rewrite Hint, Hn.
Qed.

(** ** [analyze_file] on a recording without frames *)

(** For a recording without a frame that is not stereo, [analyze_file]
    fails before the classifier runs: with the [ZeroDivisionError] of
    [len(signal) / frame_rate] when the frame rate is 0, with the
    [IndexError] of [time[-1]] otherwise. *)
Theorem analyze_file_empty
    (open_sound : string → result wave_read)
    (extract_timestamp : string → result datetime)
    (input_file : string) (cutoff : Z) (max_gap : Q) (w : wave_read) :
  open_sound input_file = Ok w →
  wav_nchannels w ≠ 2 → wav_data w = [] →
  analyze_file open_sound extract_timestamp input_file cutoff max_gap
  = Raise (if wav_framerate w =? 0 then ZeroDivisionError else IndexError).
Proof.
  intros Hw Hch Hdata. unfold analyze_file. rewrite Hw.
  cbn [mbind result_bind]. unfold read_sound_file, readframes.
  destruct (Z.eqb_spec (wav_nchannels w) 2) as [| _]; [done |].
  rewrite Hdata. cbn [fst wav_framerate]. rewrite take_nil.
  cbn [np_frombuffer_int16 length Z.of_nat decode_int16 np_abs_int16 map
       mbind result_bind].
  replace (0 mod 2 =? 0) with true by reflexivity.
  cbn [mbind result_bind map length]. unfold py_truediv.
  destruct (wav_framerate w =? 0); reflexivity.
Qed.

Lemma analyze_file_empty_witness :
  analyze_file (λ _, Ok wav_empty) (λ _, Ok ts0) "rec.wav" 5000 5
  = Raise IndexError.
Proof.
  apply (analyze_file_empty (λ _, Ok wav_empty) (λ _, Ok ts0) "rec.wav"
           5000 5 wav_empty).
  - reflexivity.
  - discriminate.
  - reflexivity.
Defined.

(** ** The times of a result *)

(** When [analyze_file] returns a result for a recording with a positive
    frame rate, its [bark_time] is a number that lies between 0 and its
    [total_time]. *)
Theorem analyze_file_bark_time
    (open_sound : string → result wave_read)
    (extract_timestamp : string → result datetime)
    (input_file : string) (cutoff : Z) (max_gap : Q)
    (w : wave_read) (res : AnalysisResult) :
  open_sound input_file = Ok w → 0 < wav_framerate w →
  analyze_file open_sound extract_timestamp input_file cutoff max_gap
  = Ok res →
  ∃ b, bark_time res = Finite b ∧ (0 <= b <= total_time res)%Q.
Proof.
  intros Hw Hr. unfold analyze_file. rewrite Hw. cbn [mbind result_bind].
  destruct (read_sound_file w (PyInt (-1))).1 as [[time signal] | e] eqn:Hread;
    [| discriminate].
  cbn [mbind result_bind].
  destruct (read_sound_file_time _ _ _ _ Hread) as [_ ->].
  destruct signal as [| s0 rest].
  { cbn [length np_linspace]. discriminate. }
  assert (Hne : s0 :: rest ≠ []) by done.
  set (n := length (s0 :: rest)).
  assert (Htotal : ∃ t, py_index
            (np_linspace 0 (inject_Z (Z.of_nat n) / inject_Z (wav_framerate w)) n)
            (-1) = Ok t ∧ (0 <= t)%Q).
  { destruct (decide (n = 1%nat)) as [-> | Hn].
    - eexists. split; [reflexivity |].
      change (inject_Z (Z.of_nat 0)) with 0%Q. rewrite Qmult_0_l.
      apply Qle_refl.
    - rewrite np_linspace_last by (unfold n in *; cbn [length] in *; lia).
      eexists. split; [reflexivity |].
      apply Qle_shift_div_l.
      + change 0%Q with (inject_Z 0). rewrite <- Zlt_Qlt. lia.
      + rewrite Qmult_0_l. change 0%Q with (inject_Z 0).
        rewrite <- Zle_Qle. lia. }
  destruct Htotal as (t & -> & Ht). cbn [mbind result_bind].
  assert (Hcase : ((max_gap <= 0)%Q ∨ fits int16 (cutoff + 1) = true) ∨
                  (¬ (max_gap <= 0)%Q ∧ fits int16 (cutoff + 1) = false)).
  { destruct (Qlt_le_dec 0 max_gap) as [Hgap | Hgap]; [| by left; left].
    destruct (fits int16 (cutoff + 1)); [by left; right |].
    right. split; [by apply Qlt_not_le | done]. }
  destruct Hcase as [Hcase | [Hgap Hfits]].
  2: { by rewrite (get_bark_fraction_overflow int16 (s0 :: rest) cutoff
                     max_gap Hne Hgap Hfits). }
  destruct (get_bark_fraction_value int16 (s0 :: rest) cutoff max_gap Hne
              Hcase) as (out & Hall & Hf).
  pose proof (count_high_bounds cutoff out) as Hcount.
  rewrite <- (Forall2_length _ _ _ Hall) in Hcount.
  destruct (fraction_bounds (count_high cutoff out)
              (Z.of_nat (length (s0 :: rest)))) as [Hf0 Hf1];
    [cbn [length]; lia | done |].
  set (f := (inject_Z (count_high cutoff out)
             / inject_Z (Z.of_nat (length (s0 :: rest))))%Q) in *.
  rewrite Hf. cbn [mbind result_bind].
  destruct (extract_timestamp input_file) as [ts |]; [| discriminate].
  cbn [mbind result_bind]. intros [= <-]. cbn [bark_time total_time np_mul].
  eexists. split; [reflexivity |]. split.
  - by apply Qmult_le_0_compat.
  - apply Qle_trans with (1 * t)%Q.
    + rewrite (Qmult_comm t f). by apply Qmult_le_compat_r.
    + rewrite Qmult_1_l. apply Qle_refl.
Qed.

Lemma analyze_file_bark_time_witness :
  ∃ res,
    analyze_file (λ _, Ok wav_4hz) (λ _, Ok ts0) "rec.wav" 5000 0 = Ok res ∧
    ∃ b, bark_time res = Finite b ∧ (0 <= b <= total_time res)%Q.
Proof.
  eexists. split; [vm_compute; reflexivity |].
  eapply (analyze_file_bark_time (λ _, Ok wav_4hz) (λ _, Ok ts0) "rec.wav"
            5000 0 wav_4hz).
  - reflexivity.
  - reflexivity.
  - vm_compute. reflexivity.
Defined.

(** ** More on [write_csv] *)

Lemma write_csv_append (rows : loc) (file : string) (σ : world)
    (rs old : list row) :
  heap σ !! rows = Some rs → files σ !! file = Some old →
  write_csv rows file false σ
  = Some {| heap := heap σ; files := <[file := old ++ rs]> (files σ) |}.
Proof.
  intros Hrows Hfile. unfold write_csv. rewrite Hrows, Hfile.
  cbn [mbind option_bind]. rewrite bool_decide_eq_true_2 by eauto.
  reflexivity.
Qed.

Lemma write_csv_write (rows : loc) (file : string) (overwrite : bool)
    (σ : world) (rs : list row) :
  heap σ !! rows = Some rs → files σ !! file = None ∨ overwrite = true →
  write_csv rows file overwrite σ
  = Some {| heap := <[rows := header :: rs]> (heap σ);
            files := <[file := header :: rs]> (files σ) |}.
Proof.
  intros Hrows H. unfold write_csv. rewrite Hrows.
  cbn [mbind option_bind].
  destruct H as [Hfile | ->].
  - rewrite Hfile. rewrite bool_decide_eq_false_2 by (intros [? ?]; done).
    reflexivity.
  - cbn [negb]. by rewrite andb_false_r.
Qed.

(** [write_csv] touches one file and one list: every other file and every
    other list is as before. *)
Theorem write_csv_frame (rows : loc) (file : string) (overwrite : bool)
    (σ : world) (rs : list row) :
  heap σ !! rows = Some rs →
  ∃ σ', write_csv rows file overwrite σ = Some σ' ∧
    (∀ f, f ≠ file → files σ' !! f = files σ !! f) ∧
    (∀ l, l ≠ rows → heap σ' !! l = heap σ !! l).
Proof.
  intros Hrows.
  destruct (files σ !! file) as [old |] eqn:Hfile; [destruct overwrite |].
  - rewrite (write_csv_write rows file true σ rs) by auto.
    eexists. split; [reflexivity |]. cbn [heap files].
    split; intros x Hx; by rewrite lookup_insert_ne.
  - rewrite (write_csv_append rows file σ rs old) by done.
    eexists. split; [reflexivity |]. cbn [heap files].
    split; intros x Hx; [by rewrite lookup_insert_ne | done].
  - rewrite (write_csv_write rows file overwrite σ rs) by auto.
    eexists. split; [reflexivity |]. cbn [heap files].
    split; intros x Hx; by rewrite lookup_insert_ne.
Qed.

Lemma write_csv_frame_witness :
  ∃ σ', write_csv 1%positive "summary.csv" true
          {| heap := {[1%positive := [[CFloat 1]]]};
             files := {["other.csv" := [header]]} |} = Some σ' ∧
    files σ' !! "other.csv" = Some [header].
Proof.
  destruct (write_csv_frame 1%positive "summary.csv" true
              {| heap := {[1%positive := [[CFloat 1]]]};
                 files := {["other.csv" := [header]]} |}
              [[CFloat 1]]) as (σ' & H & Hf & _).
  - reflexivity.
  - exists σ'. split; [exact H |].
    rewrite (Hf "other.csv") by discriminate. reflexivity.
Defined.

(** A list that has been written with the header carries it: a second
    call with the same list writes the header again, twice at the top of
    the file when it overwrites, in the middle of the file when it
    appends. *)
Theorem write_csv_same_list (rows : loc) (file : string) (ow1 ow2 : bool)
    (σ : world) (rs : list row) :
  heap σ !! rows = Some rs → files σ !! file = None ∨ ow1 = true →
  ∃ σ1 σ2, write_csv rows file ow1 σ = Some σ1 ∧
    write_csv rows file ow2 σ1 = Some σ2 ∧
    files σ2 !! file
    = Some (if ow2 then header :: header :: rs
            else (header :: rs) ++ header :: rs) ∧
    heap σ2 !! rows
    = Some (if ow2 then header :: header :: rs else header :: rs).
Proof.
  intros Hrows H1.
  rewrite (write_csv_write rows file ow1 σ rs) by done.
  set (σ1 := {| heap := <[rows := header :: rs]> (heap σ);
                files := <[file := header :: rs]> (files σ) |}).
  assert (Hrows1 : heap σ1 !! rows = Some (header :: rs))
    by apply lookup_insert_eq.
  assert (Hfile1 : files σ1 !! file = Some (header :: rs))
    by apply lookup_insert_eq.
  exists σ1. destruct ow2.
  - rewrite (write_csv_write rows file true σ1 (header :: rs)) by auto.
    eexists. split; [reflexivity |]. split; [reflexivity |]. cbn [heap files].
    by rewrite !lookup_insert_eq.
  - rewrite (write_csv_append rows file σ1 (header :: rs) (header :: rs))
      by done.
    eexists. split; [reflexivity |]. split; [reflexivity |]. cbn [heap files].
    by rewrite lookup_insert_eq.
Qed.

Lemma write_csv_same_list_witness :
  ∃ σ1 σ2,
    write_csv 1%positive "summary.csv" true
      {| heap := {[1%positive := [[CFloat 1]]]}; files := ∅ |} = Some σ1 ∧
    write_csv 1%positive "summary.csv" true σ1 = Some σ2 ∧
    files σ2 !! "summary.csv" = Some [header; header; [CFloat 1]].
Proof.
  destruct (write_csv_same_list 1%positive "summary.csv" true true
              {| heap := {[1%positive := [[CFloat 1]]]}; files := ∅ |}
              [[CFloat 1]]) as (σ1 & σ2 & H1 & H2 & H3 & _).
  - reflexivity.
  - by right.
  - exists σ1, σ2. repeat split; assumption.
Defined.

(** Two lists written one after the other to a file that did not exist:
    the file holds the header once, then the rows of the first list, then
    the rows of the second, and the second list is as it was. *)
Theorem write_csv_then_append (rows1 rows2 : loc) (file : string)
    (σ : world) (rs1 rs2 : list row) :
  rows1 ≠ rows2 →
  heap σ !! rows1 = Some rs1 → heap σ !! rows2 = Some rs2 →
  files σ !! file = None →
  ∃ σ1 σ2, write_csv rows1 file false σ = Some σ1 ∧
    write_csv rows2 file false σ1 = Some σ2 ∧
    files σ2 !! file = Some (header :: rs1 ++ rs2) ∧
    heap σ2 !! rows2 = Some rs2.
Proof.
  intros Hne H1 H2 Hfile.
  rewrite (write_csv_write rows1 file false σ rs1) by auto.
  set (σ1 := {| heap := <[rows1 := header :: rs1]> (heap σ);
                files := <[file := header :: rs1]> (files σ) |}).
  assert (H2' : heap σ1 !! rows2 = Some rs2)
    by (cbn [σ1 heap]; by rewrite lookup_insert_ne).
  assert (Hfile1 : files σ1 !! file = Some (header :: rs1))
    by apply lookup_insert_eq.
  exists σ1.
  rewrite (write_csv_append rows2 file σ1 rs2 (header :: rs1)) by done.
  eexists. split; [reflexivity |]. split; [reflexivity |]. cbn [heap files].
  rewrite lookup_insert_eq. split; [done |]. exact H2'.
Qed.

Lemma write_csv_then_append_witness :
  ∃ σ1 σ2,
    write_csv 1%positive "summary.csv" false
      {| heap := {[1%positive := [[CFloat 1]]; 2%positive := [[CFloat 2]]]};
         files := ∅ |} = Some σ1 ∧
    write_csv 2%positive "summary.csv" false σ1 = Some σ2 ∧
    files σ2 !! "summary.csv" = Some [header; [CFloat 1]; [CFloat 2]].
Proof.
  destruct (write_csv_then_append 1%positive 2%positive "summary.csv"
              {| heap := {[1%positive := [[CFloat 1]];
                           2%positive := [[CFloat 2]]]};
                 files := ∅ |}
              [[CFloat 1]] [[CFloat 2]]) as (σ1 & σ2 & H1 & H2 & H3 & _).
  - discriminate.
  - reflexivity.
  - reflexivity.
  - reflexivity.
  - exists σ1, σ2. repeat split; assumption.
Defined.

(** ** [main] of [analyze.py] *)

Lemma process_map_ok {A B} (f : A → result B) (l : list A) (ys : list B) :
  Forall2 (λ x y, f x = Ok y) l ys → process_map f l = Ok ys.
Proof.
  induction 1 as [| x y l ys Hxy _ IH]; [reflexivity |].
  cbn [process_map]. rewrite Hxy. cbn [mbind result_bind]. by rewrite IH.
Qed.

Lemma process_map_fail {A B} (f : A → result B) (pre post : list A)
    (x : A) (e : exn) :
  Forall (λ x, ∃ y, f x = Ok y) pre → f x = Raise e →
  process_map f (pre ++ x :: post) = Raise e.
Proof.
  intros Hpre Hx. induction Hpre as [| x0 pre [y Hy] _ IH]; cbn [app process_map].
  - by rewrite Hx.
  - rewrite Hy. cbn [mbind result_bind]. by rewrite IH.
Qed.

Lemma write_csv_new_files (rs : list row) (file : string) (overwrite : bool)
    (σ : world) :
  files (write_csv_new rs file overwrite σ)
  = <[file := match files σ !! file with
              | Some old => if overwrite then header :: rs else old ++ rs
              | None => header :: rs
              end]> (files σ).
Proof.
  unfold write_csv_new, new_list.
  set (l := fresh (dom (heap σ))).
  set (σ1 := {| heap := <[l := rs]> (heap σ); files := files σ |}).
  assert (Hl : heap σ1 !! l = Some rs) by apply lookup_insert_eq.
  destruct (files σ !! file) as [old |] eqn:Hfile; [destruct overwrite |].
  - by rewrite (write_csv_write l file true σ1 rs) by auto.
  - by rewrite (write_csv_append l file σ1 rs old) by done.
  - by rewrite (write_csv_write l file overwrite σ1 rs) by auto.
Qed.

Lemma write_csv_new_heap (rs : list row) (file : string) (overwrite : bool)
    (σ : world) (l : loc) (x : list row) :
  heap σ !! l = Some x →
  heap (write_csv_new rs file overwrite σ) !! l = Some x.
Proof.
  intros Hx. unfold write_csv_new, new_list.
  set (l0 := fresh (dom (heap σ))).
  assert (Hne : l0 ≠ l).
  { intros Heq. apply (is_fresh (dom (heap σ))). apply elem_of_dom.
    exists x. fold l0. by rewrite Heq. }
  set (σ1 := {| heap := <[l0 := rs]> (heap σ); files := files σ |}).
  assert (Hl : heap σ1 !! l0 = Some rs) by apply lookup_insert_eq.
  assert (Hx1 : heap σ1 !! l = Some x)
    by (cbn [σ1 heap]; by rewrite lookup_insert_ne).
  destruct (files σ !! file) as [old |] eqn:Hfile; [destruct overwrite |].
  - rewrite (write_csv_write l0 file true σ1 rs) by auto.
    cbn [default from_option id heap]. by rewrite lookup_insert_ne.
  - by rewrite (write_csv_append l0 file σ1 rs old) by done.
  - rewrite (write_csv_write l0 file overwrite σ1 rs) by auto.
    cbn [default from_option id heap]. by rewrite lookup_insert_ne.
Qed.

Section MainProperties.
Variable open_sound : string → result wave_read.
Variable extract_timestamp : string → result datetime.
Variables is_file is_dir : string → bool.
Variable glob_mp4 : string → list string.
Variable plot_file : string → string.
Variable parent : string → string.
Variable joinpath : string → string → string.

Local Abbreviation main_ :=
  (main open_sound extract_timestamp is_file is_dir glob_mp4 plot_file
     parent joinpath).
Local Abbreviation analyze_ args :=
  (λ file, analyze_file open_sound extract_timestamp file
             (arg_cutoff args) (arg_max_gap args)).

(** For a single recording that is analysed without an error, [main]
    saves the plot of the recording and never overwrites the summary next
    to it: a summary that exists keeps its records and gets one more, a
    summary that does not exist is made of the header and the record.  No
    other summary, no other plot and no list of the caller changes. *)
Theorem main_file_summary (args : Namespace) (σ : world)
    (plots : gset string) (res : AnalysisResult) :
  is_file (arg_input_path args) = true →
  analyze_ args (arg_input_path args) = Ok res →
  let summary := joinpath (parent (arg_input_path args)) "summary.csv" in
  ∃ σ',
    main_ args σ plots
    = Done σ' ({[plot_file (arg_input_path args)]} ∪ plots) ∧
    files σ' !! summary
    = Some (match files σ !! summary with
            | Some old => old ++ [row_of_result res]
            | None =>
                [[CStr "timestamp"; CStr "total_time"; CStr "bark_time"];
                 row_of_result res]
            end) ∧
    (∀ f, f ≠ summary → files σ' !! f = files σ !! f) ∧
    (∀ l x, heap σ !! l = Some x → heap σ' !! l = Some x).
Proof.
  intros Hfile Hres summary. unfold main. rewrite Hfile, Hres.
  eexists. split; [reflexivity |]. fold summary. split; [| split].
  - rewrite write_csv_new_files, lookup_insert_eq.
    by destruct (files σ !! summary).
  - intros f Hf. by rewrite write_csv_new_files, lookup_insert_ne.
  - intros l x. apply write_csv_new_heap.
Qed.

(** For a directory, when the analysis of a recording to analyse raises
    an exception and the analyses of the recordings before it in the list
    return, [main] raises that exception, the one of the first recording
    that fails, and writes no summary: the store of the summaries and
    lists is as before. *)
Theorem main_dir_failure (args : Namespace) (σ : world)
    (plots : gset string) (pre post : list string) (file : string)
    (e : exn) :
  is_file (arg_input_path args) = false →
  is_dir (arg_input_path args) = true →
  get_filelist glob_mp4 plot_file (arg_input_path args) (arg_rewrite args)
    plots = pre ++ file :: post →
  Forall (λ f, ∃ res, analyze_ args f = Ok res) pre →
  analyze_ args file = Raise e →
  main_ args σ plots = Raised (AnalysisError e) σ.
Proof.
  intros Hfile Hdir Hlist Hpre He. unfold main. rewrite Hfile, Hdir, Hlist.
  by rewrite (process_map_fail _ pre post file e Hpre He).
Qed.

(** For a directory with [rewrite], when every recording of the directory
    is analysed without an error, whether the recordings have plots or
    not: the plot of every recording is saved, and the summary of the
    directory is replaced by the header and one record for each
    recording, in the order of the directory listing.  No other summary
    changes. *)
Theorem main_dir_rewrite (args : Namespace) (σ : world)
    (plots : gset string) (results : list AnalysisResult) :
  is_file (arg_input_path args) = false →
  is_dir (arg_input_path args) = true →
  arg_rewrite args = true →
  Forall2 (λ file res, analyze_ args file = Ok res)
    (glob_mp4 (arg_input_path args)) results →
  let summary := joinpath (arg_input_path args) "summary.csv" in
  ∃ σ',
    main_ args σ plots
    = Done σ' (list_to_set (plot_file <$> glob_mp4 (arg_input_path args))
               ∪ plots) ∧
    files σ' !! summary
    = Some ([CStr "timestamp"; CStr "total_time"; CStr "bark_time"]
            :: map row_of_result results) ∧
    (∀ f, f ≠ summary → files σ' !! f = files σ !! f).
Proof.
  intros Hfile Hdir Hrw Hall summary. unfold main, get_filelist.
  rewrite Hfile, Hdir, Hrw. rewrite (process_map_ok _ _ _ Hall).
  eexists. split; [reflexivity |]. fold summary. split.
  - rewrite write_csv_new_files, lookup_insert_eq.
    by destruct (files σ !! summary).
  - intros f Hf. by rewrite write_csv_new_files, lookup_insert_ne.
Qed.

(** For a directory without [rewrite] in which every recording has its
    plot, nothing is analysed and no plot is saved: a summary that exists
    is left as it is, and a summary that does not exist is made of the
    header alone. *)
Theorem main_dir_all_plotted (args : Namespace) (σ : world)
    (plots : gset string) :
  is_file (arg_input_path args) = false →
  is_dir (arg_input_path args) = true →
  arg_rewrite args = false →
  Forall (λ file, plot_file file ∈ plots) (glob_mp4 (arg_input_path args)) →
  let summary := joinpath (arg_input_path args) "summary.csv" in
  ∃ σ', main_ args σ plots = Done σ' plots ∧
    files σ' !! summary
    = Some (default [[CStr "timestamp"; CStr "total_time"; CStr "bark_time"]]
              (files σ !! summary)) ∧
    (∀ f, f ≠ summary → files σ' !! f = files σ !! f).
Proof.
  intros Hfile Hdir Hrw Hall summary. unfold main, get_filelist.
  rewrite Hfile, Hdir, Hrw.
  assert (Hnil : filter (λ file, plot_file file ∉ plots)
                   (glob_mp4 (arg_input_path args)) = []).
  { induction Hall as [| file l Hp _ IH]; [done |].
    rewrite filter_cons. by destruct (decide (plot_file file ∉ plots)). }
  rewrite Hnil. cbn [process_map map fmap list_fmap list_to_set foldr].
  rewrite (left_id_L ∅ (∪)).
  eexists. split; [reflexivity |]. fold summary. split.
  - rewrite write_csv_new_files, lookup_insert_eq.
    destruct (files σ !! summary); cbn [default]; [| done].
    by rewrite app_nil_r.
  - intros f Hf. by rewrite write_csv_new_files, lookup_insert_ne.
Qed.
End MainProperties.

Lemma main_file_summary_witness :
  ∃ σ', main (λ _, Ok wav_4hz) (λ _, Ok ts0) (λ _, true) (λ _, false)
          (λ _, []) (λ _, "2023/12.png") (λ _, "2023") slash args0 world0 ∅
        = Done σ' ({["2023/12.png"]} ∪ ∅).
Proof.
  edestruct (main_file_summary (λ _, Ok wav_4hz) (λ _, Ok ts0) (λ _, true)
               (λ _, false) (λ _, []) (λ _, "2023/12.png") (λ _, "2023")
               slash args0 world0 ∅) as (σ' & H & _).
  - reflexivity.
  - vm_compute. reflexivity.
  - exists σ'. exact H.
Defined.

Lemma main_dir_failure_witness :
  main (λ _, Ok wav_stereo) (λ _, Ok ts0) (λ _, false) (λ _, true)
    (λ _, ["2023/12/a.mp4"]) (λ _, "2023/12/a.png") (λ _, "2023") slash
    args_rewrite world0 ∅
  = Raised (AnalysisError (ValueError "Only mono files supported.")) world0.
Proof.
  apply (main_dir_failure (λ _, Ok wav_stereo) (λ _, Ok ts0) (λ _, false)
           (λ _, true) (λ _, ["2023/12/a.mp4"]) (λ _, "2023/12/a.png")
           (λ _, "2023") slash args_rewrite world0 ∅ [] [] "2023/12/a.mp4").
  - reflexivity.
  - reflexivity.
  - reflexivity.
  - constructor.
  - vm_compute. reflexivity.
Defined.

Lemma main_dir_rewrite_witness :
  ∃ σ', main (λ _, Ok wav_4hz) (λ _, Ok ts0) (λ _, false) (λ _, true)
          (λ _, ["2023/12/a.mp4"]) (λ _, "2023/12/a.png") (λ _, "2023") slash
          args_rewrite world0 {["2023/12/a.png"]}
        = Done σ' (list_to_set ["2023/12/a.png"] ∪ {["2023/12/a.png"]}).
Proof.
  edestruct (main_dir_rewrite (λ _, Ok wav_4hz) (λ _, Ok ts0) (λ _, false)
               (λ _, true) (λ _, ["2023/12/a.mp4"]) (λ _, "2023/12/a.png")
               (λ _, "2023") slash args_rewrite world0 {["2023/12/a.png"]})
    as (σ' & H & _).
  - reflexivity.
  - reflexivity.
  - reflexivity.
  - constructor; [vm_compute; reflexivity | constructor].
  - exists σ'. exact H.
Defined.

Lemma main_dir_all_plotted_witness :
  ∃ σ', main (λ _, Ok wav_4hz) (λ _, Ok ts0) (λ _, false) (λ _, true)
          (λ _, ["2023/12/a.mp4"]) (λ _, "2023/12/a.png") (λ _, "2023") slash
          args0 world0 {["2023/12/a.png"]}
        = Done σ' {["2023/12/a.png"]}.
Proof.
  edestruct (main_dir_all_plotted (λ _, Ok wav_4hz) (λ _, Ok ts0)
               (λ _, false) (λ _, true) (λ _, ["2023/12/a.mp4"])
               (λ _, "2023/12/a.png") (λ _, "2023") slash args0 world0
               {["2023/12/a.png"]}) as (σ' & H & _).
  - reflexivity.
  - reflexivity.
  - reflexivity.
  - constructor; [| constructor]. by apply elem_of_singleton.
  - exists σ'. exact H.
Defined.

(** ** [exists] of [batch_copy.py] *)

(** When the destination is a regular file and the source has size 0,
    [exists] raises the [ZeroDivisionError] of its division, also when the
    destination is empty as well. *)
Theorem exists_empty_source (fl : Q → Q) (fs : gmap string file_stat)
    (source destination : string) (max_size_diff : Q) (src dst : file_stat) :
  fs !! destination = Some dst → st_is_file dst = true →
  fs !! source = Some src → st_size src = 0 →
  exists_ fl fs source destination max_size_diff
  = inl SizeZeroDivisionError.
Proof.
  intros Hdst Hfile Hsrc Hsize. unfold exists_.
  rewrite Hdst, Hsrc. cbn [from_option]. by rewrite Hfile, Hsize.
Qed.

Lemma exists_empty_source_witness :
  exists_ (round_to 1024)
    {["a.mp4" := {| st_is_file := true; st_size := 0 |};
      "b.mp4" := {| st_is_file := true; st_size := 0 |}]}
    "a.mp4" "b.mp4" (round_to 1024 (5 # 100))
  = inl SizeZeroDivisionError.
Proof.
  apply (exists_empty_source (round_to 1024) _ "a.mp4" "b.mp4"
           (round_to 1024 (5 # 100))
           {| st_is_file := true; st_size := 0 |}
           {| st_is_file := true; st_size := 0 |});
    reflexivity.
Defined.

Lemma Qdiv_le_tolerance (diff s : Z) :
  0 < s →
  (inject_Z diff / inject_Z s <= 5 # 100)%Q ↔ 20 * diff ≤ s.
Proof.
  intros Hs.
  assert (Hs' : (0 < inject_Z s)%Q)
    by (change 0%Q with (inject_Z 0); by rewrite <- Zlt_Qlt).
  assert (Hz : (inject_Z diff <= (5 # 100) * inject_Z s)%Q ↔ 20 * diff ≤ s).
  { unfold Qle. cbn [Qnum Qden Qmult inject_Z]. lia. }
  rewrite <- Hz. split; intros H.
  - apply (Qmult_le_compat_r _ _ (inject_Z s)) in H; [| by apply Qlt_le_weak].
    rewrite Qmult_comm, Qmult_div_r in H; [done |].
    intros E. rewrite E in Hs'. by apply Qlt_irrefl in Hs'.
  - by apply Qle_shift_div_r.
Qed.

Lemma round_to_mono (k : Z) (x y : Q) :
  0 < k → (x <= y)%Q → (round_to k x <= round_to k y)%Q.
Proof.
  intros Hk Hxy. unfold round_to.
  assert (Hk' : (0 <= inject_Z k)%Q).
  { change 0%Q with (inject_Z 0). rewrite <- Zle_Qle. lia. }
  apply Qmult_le_compat_r; [| by apply Qinv_le_0_compat].
  rewrite <- Zle_Qle. apply Qfloor_resp_le.
  apply Qplus_le_l. by apply Qmult_le_compat_r.
Qed.

(** With the tolerance 0.05, the default, for a source of positive size
    and a destination that is a regular file whose size differs from it
    by at most a twentieth of the size of the source, [exists] returns
    [True]: rounding is monotone, so the rounded quotient is at most the
    rounded tolerance. *)
Theorem exists_tolerance (fl : Q → Q) (fs : gmap string file_stat)
    (source destination : string) (src dst : file_stat) :
  (∀ x y, (x <= y)%Q → (fl x <= fl y)%Q) →
  fs !! destination = Some dst → st_is_file dst = true →
  fs !! source = Some src → 0 < st_size src →
  20 * Z.abs (st_size dst - st_size src) ≤ st_size src →
  exists_ fl fs source destination (fl (5 # 100)) = inr true.
Proof.
  intros Hmono Hdst Hfile Hsrc Hsize Hclose. unfold exists_.
  rewrite Hdst, Hsrc. cbn [from_option]. rewrite Hfile. cbn [negb].
  destruct (Z.eqb_spec (st_size src) 0) as [| _]; [lia |].
  apply (Qdiv_le_tolerance _ _ Hsize), Hmono, Qle_bool_iff in Hclose.
  by rewrite Hclose.
Qed.

Lemma exists_tolerance_witness :
  exists_ (round_to 1024)
    {["a.mp4" := {| st_is_file := true; st_size := 100 |};
      "b.mp4" := {| st_is_file := true; st_size := 105 |}]}
    "a.mp4" "b.mp4" (round_to 1024 (5 # 100))
  = inr true.
Proof.
  apply (exists_tolerance (round_to 1024) _ "a.mp4" "b.mp4"
           {| st_is_file := true; st_size := 100 |}
           {| st_is_file := true; st_size := 105 |}).
  - intros x y. by apply round_to_mono.
  - reflexivity.
  - reflexivity.
  - reflexivity.
  - reflexivity.
  - cbn [st_size]. lia.
Defined.

(** ** [get_subfolders] of [archive.py] *)

Lemma insert_key_perm (kx : Z * string) (l : list (Z * string)) :
  insert_key kx l ≡ₚ kx :: l.
Proof.
  induction l as [| ky l IH]; [done |]. cbn [insert_key].
  destruct (kx.1 <=? ky.1); [done |]. rewrite IH. apply Permutation_swap.
Qed.

Lemma py_sorted_perm (l : list (Z * string)) : py_sorted l ≡ₚ l.
Proof.
  induction l as [| kx l IH]; [done |].
  cbn [py_sorted foldr]. fold (py_sorted l).
  by rewrite insert_key_perm, IH.
Qed.

Lemma insert_key_sorted (kx : Z * string) (l : list (Z * string)) :
  StronglySorted (λ a b, a.1 ≤ b.1) l →
  StronglySorted (λ a b, a.1 ≤ b.1) (insert_key kx l).
Proof.
  induction 1 as [| ky l Hl IH Hky]; cbn [insert_key].
  - repeat constructor.
  - destruct (Z.leb_spec kx.1 ky.1) as [Hle | Hgt].
    + constructor; [by constructor |]. constructor; [done |].
      eapply Forall_impl; [exact Hky |]. cbn. intros. lia.
    + constructor; [done |].
      rewrite insert_key_perm. constructor; [lia | done].
Qed.

Lemma py_sorted_sorted (l : list (Z * string)) :
  StronglySorted (λ a b, a.1 ≤ b.1) (py_sorted l).
Proof.
  induction l as [| kx l IH]; [constructor |].
  cbn [py_sorted foldr]. by apply insert_key_sorted.
Qed.

Section ArchiveProperties.
Variable to_int : string → result Z.

Local Abbreviation key_le := (key_le to_int).

Lemma keyed_ok (folders : list string) (keys : list Z) :
  Forall2 (λ name k, to_int name = Ok k) folders keys →
  process_map (λ name, k ← to_int name; Ok (k, name)) folders
  = Ok (zip keys folders) ∧
  Forall (λ p, to_int p.2 = Ok p.1) (zip keys folders) ∧
  (zip keys folders).*2 = folders.
Proof.
  induction 1 as [| name k folders keys Hk _ (IH1 & IH2 & IH3)].
  - by repeat split.
  - cbn [process_map zip zip_with]. rewrite Hk. cbn [mbind result_bind].
    fold (zip keys folders). rewrite IH1. cbn [mbind result_bind].
    split; [done |]. split; [by constructor |].
    cbn [fmap list_fmap snd]. f_equal. exact IH3.
Qed.

Lemma sorted_names (l : list (Z * string)) :
  Forall (λ p, to_int p.2 = Ok p.1) l →
  StronglySorted (λ a b, a.1 ≤ b.1) l →
  StronglySorted key_le l.*2.
Proof.
  intros Hall Hs. induction Hs as [| p l Hl IH Hp]; [constructor |].
  apply Forall_cons in Hall as [Hp1 Hall].
  cbn [fmap list_fmap]. constructor; [by apply IH |].
  apply Forall_fmap, Forall_forall. intros q Hq. cbn.
  rewrite Forall_forall in Hp, Hall.
  exists p.1, q.1. split; [done |]. split; [by apply Hall | by apply Hp].
Qed.

(** The shared form: the sorted names, a permutation of the folders. *)
Lemma get_subfolders_sorted (entries : list (string * bool)) (keys : list Z) :
  let folders := (filter (λ e, e.2 = true) entries).*1 in
  Forall2 (λ name k, to_int name = Ok k) folders keys →
  ∃ sorted, sorted ≡ₚ folders ∧ StronglySorted key_le sorted ∧
    ∀ archive_all, get_subfolders to_int entries archive_all
    = if archive_all then Ok sorted
      else match sorted with
           | [] => Raise IndexError
           | _ :: _ => Ok (removelast sorted)
           end.
Proof.
  intros folders Hkeys.
  destruct (keyed_ok folders keys Hkeys) as (Hmap & Hall & Hsnd).
  exists (py_sorted (zip keys folders)).*2. split; [| split].
  - rewrite py_sorted_perm. by rewrite Hsnd.
  - apply sorted_names; [| apply py_sorted_sorted].
    by rewrite py_sorted_perm.
  - intros archive_all. unfold get_subfolders. fold folders.
    by rewrite Hmap.
Qed.

(** With [archive_all], when every folder has a number, [get_subfolders]
    returns all the folders, and only them, in the order of their
    numbers. *)
Theorem get_subfolders_all (entries : list (string * bool))
    (keys : list Z) :
  Forall2 (λ name k, to_int name = Ok k)
    (filter (λ e, e.2 = true) entries).*1 keys →
  ∃ out, get_subfolders to_int entries true = Ok out ∧
    out ≡ₚ (filter (λ e, e.2 = true) entries).*1 ∧
    StronglySorted key_le out.
Proof.
  intros Hkeys.
  destruct (get_subfolders_sorted entries keys Hkeys)
    as (sorted & Hperm & Hsorted & Heq).
  exists sorted. by rewrite (Heq true).
Qed.

(** Without [archive_all], when every folder has a number and there is a
    folder, [get_subfolders] leaves out one folder, whose number is at
    least the number of every folder it returns, and returns the others in
    the order of their numbers. *)
Theorem get_subfolders_newest (entries : list (string * bool))
    (keys : list Z) :
  Forall2 (λ name k, to_int name = Ok k)
    (filter (λ e, e.2 = true) entries).*1 keys →
  (filter (λ e, e.2 = true) entries).*1 ≠ [] →
  ∃ out newest, get_subfolders to_int entries false = Ok out ∧
    out ++ [newest] ≡ₚ (filter (λ e, e.2 = true) entries).*1 ∧
    StronglySorted key_le out ∧
    ∀ name, name ∈ out → key_le name newest.
Proof.
  intros Hkeys Hne.
  destruct (get_subfolders_sorted entries keys Hkeys)
    as (sorted & Hperm & Hsorted & Heq).
  destruct sorted as [| x sorted].
  { apply Permutation_nil_l in Hperm. by rewrite Hperm in Hne. }
  pose proof (app_removelast_last "" (l := x :: sorted)) as Hlast.
  specialize (Hlast ltac:(done)).
  exists (removelast (x :: sorted)), (List.last (x :: sorted) "").
  split; [by rewrite (Heq false) |].
  rewrite <- Hlast. split; [done |].
  rewrite Hlast in Hsorted. split.
  - by apply StronglySorted_app_1_l in Hsorted.
  - intros name Hname.
    eapply StronglySorted_app_1_elem_of; [exact Hsorted | done |].
    by apply list_elem_of_singleton.
Qed.

(** Without [archive_all], a directory without a folder makes
    [get_subfolders] raise the [IndexError] of [del subfolders[-1]]. *)
Theorem get_subfolders_none (entries : list (string * bool)) :
  Forall (λ e, e.2 = false) entries →
  get_subfolders to_int entries false = Raise IndexError ∧
  get_subfolders to_int entries true = Ok [].
Proof.
  intros Hall.
  assert (Hnil : filter (λ e : string * bool, e.2 = true) entries = []).
  { induction Hall as [| e l He _ IH]; [done |].
    rewrite filter_cons. destruct (decide (e.2 = true)); [congruence | done]. }
  unfold get_subfolders. by rewrite Hnil.
Qed.
End ArchiveProperties.

Lemma get_subfolders_all_witness :
  ∃ out, get_subfolders sample_int year_entries true = Ok out ∧
    out ≡ₚ ["10"; "9"; "11"].
Proof.
  destruct (get_subfolders_all sample_int year_entries [10; 9; 11])
    as (out & H & Hperm & _).
  - repeat constructor.
  - exists out. split; [exact H | exact Hperm].
Defined.

Lemma get_subfolders_newest_witness :
  ∃ out newest, get_subfolders sample_int year_entries false = Ok out ∧
    out ++ [newest] ≡ₚ ["10"; "9"; "11"].
Proof.
  destruct (get_subfolders_newest sample_int year_entries [10; 9; 11])
    as (out & newest & H & Hperm & _).
  - repeat constructor.
  - discriminate.
  - exists out, newest. split; [exact H | exact Hperm].
Defined.

Lemma get_subfolders_none_witness :
  get_subfolders sample_int [("summary.csv", false)] false
  = Raise IndexError.
Proof.
  apply (get_subfolders_none sample_int [("summary.csv", false)]).
  by repeat constructor.
Defined.

Example get_subfolders_year :
  get_subfolders sample_int year_entries false = Ok ["9"; "10"].
Proof. reflexivity. Qed.

(** ** [extract_timestamp] of [utils.py] *)

Lemma py_split_cons (sep : Ascii.ascii) (s : string) :
  ∃ w ws, py_split sep s = w :: ws.
Proof.
  destruct s as [| c s]; cbn [py_split]; [eauto |].
  destruct (Ascii.eqb c sep); [eauto |].
  destruct (py_split sep s); eauto.
Qed.

Lemma py_split_free (sep : Ascii.ascii) (a rest : string) :
  free_of sep a = true →
  py_split sep (a +:+ String sep rest) = a :: py_split sep rest.
Proof.
  induction a as [| c a IH]; cbn [free_of]; intros H.
  - change ("" +:+ String sep rest) with (String sep rest).
    cbn [py_split]. by rewrite Ascii.eqb_refl.
  - apply andb_true_iff in H as [Hc Ha]. apply negb_true_iff in Hc.
    change (String c a +:+ String sep rest)
      with (String c (a +:+ String sep rest)).
    cbn [py_split]. by rewrite Hc, (IH Ha).
Qed.

Lemma py_split_free_end (sep : Ascii.ascii) (a : string) :
  free_of sep a = true → py_split sep a = [a].
Proof.
  induction a as [| c a IH]; cbn [free_of py_split]; intros H; [done |].
  apply andb_true_iff in H as [Hc Ha]. apply negb_true_iff in Hc.
  by rewrite Hc, (IH Ha).
Qed.

(** Only the first two fields of the file name reach [strptime]: for a
    name [a_b_rest] with no underscore in [a] and [b], [extract_timestamp]
    parses [a_b], whatever [rest] is; a name [a_b] is parsed whole. *)
Theorem extract_timestamp_fields
    (path_name : string → string)
    (strptime : string → string → result datetime)
    (file_path a b rest : string) :
  free_of "_"%char a = true → free_of "_"%char b = true →
  (path_name file_path = a +:+ "_" +:+ b +:+ "_" +:+ rest ∨
   path_name file_path = a +:+ "_" +:+ b) →
  extract_timestamp path_name strptime file_path
  = strptime (a +:+ "_" +:+ b) "%Y%m%d_%H%M%S".
Proof.
  intros Ha Hb Hname. unfold extract_timestamp. f_equal.
  destruct Hname as [-> | ->].
  - change ("_" +:+ b +:+ "_" +:+ rest)
      with (String "_" (b +:+ String "_" rest)).
    rewrite (py_split_free "_"%char a _ Ha), (py_split_free "_"%char b _ Hb).
    destruct (py_split_cons "_"%char rest) as (w & ws & ->). reflexivity.
  - change ("_" +:+ b) with (String "_" b).
    rewrite (py_split_free "_"%char a _ Ha), (py_split_free_end "_"%char b Hb).
    reflexivity.
Qed.

Lemma extract_timestamp_fields_witness :
  extract_timestamp (λ p, p) sample_strptime "20231215_093653_tp00033.mp4"
  = Ok ts0.
Proof.
  rewrite (extract_timestamp_fields (λ p, p) sample_strptime
             "20231215_093653_tp00033.mp4"
             "20231215" "093653" "tp00033.mp4").
  - reflexivity.
  - reflexivity.
  - reflexivity.
  - left. reflexivity.
Defined.

(** ** The number of samples read *)

Lemma length_decode_int16 (data : list Byte.byte) (m : nat) :
  length data = (2 * m)%nat → length (decode_int16 data) = m.
Proof.
  revert data. induction m as [| m IH]; intros data Hlen.
  - by destruct data.
  - destruct data as [| lo [| hi data]]; cbn [length] in Hlen; try lia.
    cbn [decode_int16 length]. f_equal. apply IH. lia.
Qed.

(** For a mono recording of 16-bit samples with [m] frames,
    [read_sound_file(file, n)] with [n >= 0] returns the first
    [min(n, m)] samples and leaves the other frames in the reader. *)
Theorem read_sound_file_count (w : wave_read) (n : Z) (m : nat) :
  wav_nchannels w = 1 → wav_sampwidth w = 2 → wav_framerate w ≠ 0 →
  0 ≤ n → length (wav_data w) = (2 * m)%nat →
  ∃ time signal w',
    read_sound_file w (PyInt n) = (Ok (time, signal), w') ∧
    length signal = Z.to_nat (Z.min n (Z.of_nat m)) ∧
    wav_data w' = drop (2 * Z.to_nat (Z.min n (Z.of_nat m))) (wav_data w).
Proof.
  intros Hch Hsw Hr Hn Hlen. unfold read_sound_file, readframes.
  rewrite Hch, Hsw. cbn [Z.eqb Pos.eqb].
  set (size := if (n * (1 * 2) <? 0)
                    || (Z.of_nat (length (wav_data w)) <? n * (1 * 2))
               then Z.of_nat (length (wav_data w)) else n * (1 * 2)).
  assert (Hsize : Z.to_nat size = (2 * Z.to_nat (Z.min n (Z.of_nat m)))%nat).
  { unfold size. rewrite Hlen.
    destruct (Z.ltb_spec (n * (1 * 2)) 0); [lia |].
    destruct (Z.ltb_spec (Z.of_nat (2 * m)) (n * (1 * 2)));
      cbn [orb]; lia. }
  cbn [wav_framerate]. rewrite Hsize.
  set (k := Z.to_nat (Z.min n (Z.of_nat m))) in *.
  assert (Htake : length (take (2 * k) (wav_data w)) = (2 * k)%nat).
  { rewrite length_take, Hlen. unfold k. lia. }
  unfold np_frombuffer_int16. rewrite Htake.
  replace (Z.of_nat (2 * k) mod 2 =? 0) with true.
  2:{ symmetry. apply Z.eqb_eq. rewrite Nat2Z.inj_mul.
      change (Z.of_nat 2) with 2. rewrite Z.mul_comm. apply Z.mod_mul. lia. }
  cbn [mbind result_bind]. unfold py_truediv.
  destruct (Z.eqb_spec (wav_framerate w) 0) as [| _]; [done |].
  cbn [mbind result_bind]. eexists _, _, _. split; [reflexivity |].
  split; [| reflexivity].
  unfold np_abs_int16. rewrite length_map. by apply length_decode_int16.
Qed.

Lemma read_sound_file_count_witness :
  ∃ time signal w',
    read_sound_file wav_4hz (PyInt 3) = (Ok (time, signal), w') ∧
    length signal = 3%nat.
Proof.
  destruct (read_sound_file_count wav_4hz 3 4)
    as (time & signal & w' & H & Hlen & _).
  - reflexivity.
  - reflexivity.
  - discriminate.
  - lia.
  - reflexivity.
  - exists time, signal, w'. split; [exact H | exact Hlen].
Defined.
